(** * Employer: command dispatch and background jobs of the voice assistant

    A shallow embedding of [src/modules/Employer.py].

    - Python values that cross the dispatch boundary are a small universe
      [value]; the keyword dictionary returned by the resolver is a
      [gmap string value].
    - The class attribute [Employer._active_jobs] (a dict shared by the
      control thread and the workers) is the field [active_jobs] of the
      shared store, together with the thread table and the event trace.
    - Code of the control thread is written in the monad [proc]: a tree of
      atomic accesses to the shared store, with [Join] as the only blocking
      point, [Raise] for Python exceptions and [Exit] for [os._exit].
    - The two daemon loops ([wrapper] of [start_checking_new_emails] and of
      [accept_game]) never return, so they are program counters stepped by
      [step_thread]; a schedule interleaves them with the control thread. *)

From Stdlib Require Import ZArith String List DecimalString.
From stdpp Require Import base gmap strings list.

Local Open Scope string_scope.

(** ** Python values *)

#[warnings="-register-all"]
Inductive value : Type :=
  | VNone
  | VBool (b : bool)
  | VInt (z : Z)
  | VFloat (m e : Z)          (* the double m * 2^e *)
  | VStr (s : string)
  | VList (l : list value).   (* list or tuple *)

(** Truth value of [if v:]. *)
Definition truthy (v : value) : bool :=
  match v with
  | VNone => false
  | VBool b => b
  | VInt z => negb (z =? 0)%Z
  | VFloat m _ => negb (m =? 0)%Z
  | VStr s => negb (s =? "")%string
  | VList l => match l with [] => false | _ => true end
  end.

(** [v is None] *)
Definition is_none (v : value) : bool :=
  match v with VNone => true | _ => false end.

(** [v == ""] *)
Definition eq_empty_str (v : value) : bool :=
  match v with VStr s => (s =? "")%string | _ => false end.

Inductive exn : Type :=
  | TypeError (msg : string)
  | ValueError (msg : string)
  | KeyError (key : string)
  | IndexError (msg : string).

(** [a, b = v] *)
Definition unpack2 (v : value) : exn + value * value :=
  match v with
  | VList [a; b] => inr (a, b)
  | VList [] | VList [_] =>
      inl (ValueError "not enough values to unpack (expected 2)")
  | VList _ => inl (ValueError "too many values to unpack (expected 2)")
  | VStr (String a (String b EmptyString)) =>
      inr (VStr (String a EmptyString), VStr (String b EmptyString))
  | VStr EmptyString | VStr (String _ EmptyString) =>
      inl (ValueError "not enough values to unpack (expected 2)")
  | VStr _ => inl (ValueError "too many values to unpack (expected 2)")
  | _ => inl (TypeError "cannot unpack non-iterable object")
  end.

Definition str_of_nat (n : nat) : string :=
  NilZero.string_of_uint (Nat.to_uint n).

Definition str_of_Z (z : Z) : string :=
  NilZero.string_of_int (Z.to_int z).

(** ** Events: what the program does to the outside world *)

Inductive extcall : Type :=
  | GetFunctionToCall (user_input : string) (functions : list string)
  | AskQuestion (question : value)
  | GetAllCommands
  | GetNewMessages
  | FormatMessage (message : value)
  | GeocoderIp (who : string)
  | GetCoordinatesForCityName (city : value)
  | GetWeatherForCoordinates (lat lon : value)
  | NewMouseController
  | TakeScreenshot (gray : bool)
  | FindTextInScreenshot (text : string)
  | GoToCenterOfBbox (bbox : value)
  | ClickLeftButton
  | IdleMouse
  | StartFile (path : string)
  | System (cmd : string).

Inductive event : Type :=
  | Print (s : string)          (* print(s) *)
  | Speak (s : string)          (* Audio.text_to_speech(s) *)
  | Call (c : extcall)          (* a call of a collaborator *)
  | Sleep (secs : Z).           (* time.sleep(secs) *)

(** The output channel: what was printed or spoken, in order. *)
Definition is_output (e : event) : bool :=
  match e with Print _ | Speak _ => true | _ => false end.

Definition output (evs : list event) : list event :=
  List.filter is_output evs.

(** ** Threads and the shared store *)

Inductive poller_pc : Type :=
  | PCheck      (* at [if "check_new_emails" not in Employer._active_jobs] *)
  | PWork       (* at [Employer.check_new_emails(audio=audio)] *)
  | PSleep      (* at [time.sleep(60 * minutes)] *)
  | PDone.      (* after [break]: the thread has finished *)

Inductive watcher_pc : Type :=
  | WInit       (* at [mouse_controller = MouseController()] *)
  | WLook       (* at [screenshot = ScreenReader.take_screenshot(gray=True)] *)
  | WSleep      (* at [time.sleep(5)] *)
  | WDone       (* after [break] *)
  | WCrashed (e : exn).

Inductive thread : Type :=
  | Poller (audio : value) (pc : poller_pc)
  | Watcher (pc : watcher_pc).

Definition thread_finished (th : thread) : bool :=
  match th with
  | Poller _ PDone | Watcher WDone | Watcher (WCrashed _) => true
  | _ => false
  end.

Definition is_live_poller (th : thread) : bool :=
  match th with
  | Poller _ PDone => false
  | Poller _ _ => true
  | Watcher _ => false
  end.

Definition is_watcher (th : thread) : bool :=
  match th with Watcher _ => true | Poller _ _ => false end.

Record shared : Type := mkShared {
  active_jobs : gmap string nat;   (* Employer._active_jobs, key to thread *)
  threads : list thread;           (* every thread ever started, by handle *)
  trace : list event;
  polls : nat;                     (* calls of Gmail.get_new_messages so far *)
  shots : nat;                     (* screenshots taken so far *)
}.

Definition initial : shared :=
  {| active_jobs := ∅; threads := []; trace := []; polls := 0; shots := 0 |}.

Definition emit (e : event) (s : shared) : shared :=
  {| active_jobs := active_jobs s; threads := threads s;
     trace := (trace s ++ [e])%list; polls := polls s; shots := shots s |}.

Definition set_threads (ths : list thread) (s : shared) : shared :=
  {| active_jobs := active_jobs s; threads := ths;
     trace := trace s; polls := polls s; shots := shots s |}.

Definition set_jobs (m : gmap string nat) (s : shared) : shared :=
  {| active_jobs := m; threads := threads s;
     trace := trace s; polls := polls s; shots := shots s |}.

Definition bump_polls (s : shared) : shared :=
  {| active_jobs := active_jobs s; threads := threads s;
     trace := trace s; polls := S (polls s); shots := shots s |}.

Definition bump_shots (s : shared) : shared :=
  {| active_jobs := active_jobs s; threads := threads s;
     trace := trace s; polls := polls s; shots := S (shots s) |}.

Definition finished (t : nat) (s : shared) : bool :=
  match threads s !! t with
  | Some th => thread_finished th
  | None => false
  end.

Definition live_pollers (s : shared) : nat :=
  length (List.filter is_live_poller (threads s)).

Definition watchers (s : shared) : nat :=
  length (List.filter is_watcher (threads s)).

(** ** The monad of control-thread code *)

Inductive proc (A : Type) : Type :=
  | Ret (a : A)
  | Raise (e : exn)
  | Exit (code : Z)
  | Atomic (upd : shared -> shared) (k : shared -> proc A)
  | Join (t : nat) (k : proc A).

Arguments Ret {A} a.
Arguments Raise {A} e.
Arguments Exit {A} code.
Arguments Atomic {A} upd k.
Arguments Join {A} t k.

Fixpoint bind {A B : Type} (p : proc A) (f : A -> proc B) : proc B :=
  match p with
  | Ret a => f a
  | Raise e => Raise e
  | Exit c => Exit c
  | Atomic u k => Atomic u (fun s => bind (k s) f)
  | Join t k => Join t (bind k f)
  end.

Declare Scope proc_scope.
Delimit Scope proc_scope with proc.
Notation "'let*' x ':=' p 'in' k" := (bind p (fun x => k))
  (at level 10, x name, p at level 100, k at level 200, only parsing)
  : proc_scope.
Notation "p >> k" := (bind p (fun _ => k))
  (at level 60, right associativity, only parsing) : proc_scope.
Local Open Scope proc_scope.

(** How a run of control-thread code ends. *)
Inductive outcome (A : Type) : Type :=
  | Returned (a : A)
  | Raised (e : exn)        (* an uncaught exception leaves the call *)
  | Exited (code : Z)       (* the process is gone *)
  | Blocked (t : nat).      (* waiting in [join] on a thread still running *)

Arguments Returned {A} a.
Arguments Raised {A} e.
Arguments Exited {A} code.
Arguments Blocked {A} t.

(** The control thread running alone, no worker scheduled in between. *)
Fixpoint exec {A : Type} (p : proc A) (s : shared) : outcome A * shared :=
  match p with
  | Ret a => (Returned a, s)
  | Raise e => (Raised e, s)
  | Exit c => (Exited c, s)
  | Atomic u k => exec (k s) (u s)
  | Join t k => if finished t s then exec k s else (Blocked t, s)
  end.

(** Primitive statements. *)
Definition print (text : string) : proc unit :=
  Atomic (emit (Print text)) (fun _ => Ret tt).

Definition text_to_speech (text : string) : proc unit :=
  Atomic (emit (Speak text)) (fun _ => Ret tt).

Definition call (c : extcall) : proc unit :=
  Atomic (emit (Call c)) (fun _ => Ret tt).

(** [if audio: Audio.text_to_speech(text) else: print(text)] *)
Definition say (audio : value) (text : string) : proc unit :=
  if truthy audio then text_to_speech text else print text.

(** [key in Employer._active_jobs] *)
Definition job_present (key : string) : proc bool :=
  Atomic id (fun s => Ret (bool_decide (is_Some (active_jobs s !! key)))).

(** [Employer._active_jobs[key]] *)
Definition job_get (key : string) : proc nat :=
  Atomic id (fun s =>
    match active_jobs s !! key with
    | Some t => Ret t
    | None => Raise (KeyError key)
    end).

(** [Employer._active_jobs[key] = thread] *)
Definition job_set (key : string) (t : nat) : proc unit :=
  Atomic (fun s => set_jobs (<[key := t]> (active_jobs s)) s)
         (fun _ => Ret tt).

(** [del Employer._active_jobs[key]] *)
Definition job_del (key : string) : proc unit :=
  Atomic (fun s => set_jobs (delete key (active_jobs s)) s)
         (fun s =>
            match active_jobs s !! key with
            | Some _ => Ret tt
            | None => Raise (KeyError key)
            end).

(** [thread = threading.Thread(target=...); thread.daemon = True;
    thread.start()]: the handle is the index in the thread table. *)
Definition thread_start (th : thread) : proc nat :=
  Atomic (fun s => set_threads (threads s ++ [th])%list s)
         (fun s => Ret (length (threads s))).

(** [thread.join()] *)
Definition join (t : nat) : proc unit := Join t (Ret tt).

(** [for x in xs: body(x)] *)
Fixpoint for_each {A : Type} (xs : list A) (body : A -> proc unit)
  : proc unit :=
  match xs with
  | [] => Ret tt
  | x :: rest => body x >> for_each rest body
  end.

(** ** The collaborators

    [AI], [Audio], [Commands], [Gmail], [Weather], [ScreenReader],
    [MouseController] and [geocoder] are imported modules: only what they
    answer is taken here, as parameters.  A call is recorded in the trace;
    the mailbox and the screen are polled, so their answer depends on how
    often they were asked before. *)

Record bot_response : Type := {
  name : string;                   (* bot_response["name"] *)
  args : gmap string value;        (* bot_response["args"] *)
}.

Record geolocation : Type := {
  geo_city : value;                (* .city *)
  geo_latlng : value;              (* .latlng *)
}.

Record weather_report : Type := {
  description : value;             (* weather['weather'][0]['description'] *)
  temp : value;                    (* weather['main']['temp'] *)
}.

Record Env : Type := {
  get_function_to_call : string -> list string -> option bot_response;
  ai_ask_question : value -> option string;
  get_all_commands : list string;
  get_new_messages : nat -> list value;
  format_message : value -> string;
  geocoder_ip : string -> geolocation;
  get_coordinates_for_city_name : value -> value * value;
  get_weather_for_coordinates : value -> value -> option weather_report;
  find_text_in_screenshot : nat -> string -> option value;
  repr : value -> string;          (* rendering of floats and lists *)
}.

(** The object: [self.audio]; [self.available_jobs] is the fixed table
    [available_jobs] below. *)
Record Employer : Type := { audio : bool }.

(** [v[0]] *)
Definition index0 (v : value) : exn + value :=
  match v with
  | VList (x :: _) => inr x
  | VList [] => inl (IndexError "list index out of range")
  | VStr (String a _) => inr (VStr (String a EmptyString))
  | VStr EmptyString => inl (IndexError "string index out of range")
  | _ => inl (TypeError "object is not subscriptable")
  end.

(** [key in d] and [d[key]] on the ordered dict [self.available_jobs]. *)
Fixpoint assoc {A : Type} (key : string) (d : list (string * A)) : option A :=
  match d with
  | [] => None
  | (k, v) :: rest => if (k =? key)%string then Some v else assoc key rest
  end.

(** A keyword argument with a default. *)
Definition kwarg (kw : gmap string value) (param : string) (dflt : value)
  : value :=
  default dflt (kw !! param).

Section WithCollaborators.

Variable E : Env.

(** [f"{v}"] *)
Definition format_value (v : value) : string :=
  match v with
  | VNone => "None"
  | VBool true => "True"
  | VBool false => "False"
  | VInt z => str_of_Z z
  | VStr s => s
  | _ => repr E v
  end.

(** *** The actions *)

Definition help (audio : value) : proc value :=
  print "Getting all commands..." >>
  call GetAllCommands >>
  let commands := get_all_commands E in
  let string_commends := String.concat ", " commands in
  say audio ("Available commands are: " +:+ string_commends +:+ ".") >>
  Ret VNone.

Definition ask_question (question : value) (audio : value) : proc value :=
  print "Asking question..." >>
  call (AskQuestion question) >>
  let answer := ai_ask_question E question in
  match answer with
  | None => print "Error: Could not retrieve an answer." >> Ret VNone
  | Some answer => say audio answer >> Ret VNone
  end.

Definition gmail_get_new_messages : proc (list value) :=
  Atomic (fun s => bump_polls (emit (Call GetNewMessages) s))
         (fun s => Ret (get_new_messages E (polls s))).

Definition check_new_emails (audio : value) : proc value :=
  print "Checking new emails..." >>
  let* messages := gmail_get_new_messages in
  say audio ("You have " +:+ str_of_nat (length messages)
             +:+ " new messages.") >>
  for_each messages (fun message =>
    call (FormatMessage message) >>
    let formatted_message := format_message E message in
    say audio formatted_message) >>
  Ret VNone.

Definition start_checking_new_emails (audio : value) : proc value :=
  let minutes := 15 in
  print ("Checking new emails every " +:+ str_of_nat minutes
         +:+ " minutes...") >>
  let* present := job_present "check_new_emails" in
  if negb present then
    let* thread := thread_start (Poller audio PCheck) in
    job_set "check_new_emails" thread >>
    Ret VNone
  else Ret VNone.

Definition stop_checking_new_emails : proc value :=
  print "Stopping checking new emails..." >>
  let* present := job_present "check_new_emails" in
  if present then
    let* thread := job_get "check_new_emails" in
    join thread >>
    job_del "check_new_emails" >>
    Ret VNone
  else Ret VNone.

Definition weather (city : value) (audio : value) : proc value :=
  print "Getting weather..." >>
  let* located :=
    if is_none city || eq_empty_str city then
      call (GeocoderIp "me") >>
      let my_geolocation := geocoder_ip E "me" in
      let city := geo_city my_geolocation in
      match unpack2 (geo_latlng my_geolocation) with
      | inr (lat, lon) => Ret (city, lat, lon)
      | inl e => Raise e
      end
    else
      call (GetCoordinatesForCityName city) >>
      let '(lat, lon) := get_coordinates_for_city_name E city in
      Ret (city, lat, lon) in
  let '(city, lat, lon) := located in
  if is_none lat || is_none lon then
    print "Error: Could not retrieve coordinates for the given city." >>
    Ret VNone
  else
    call (GetWeatherForCoordinates lat lon) >>
    let weather := get_weather_for_coordinates E lat lon in
    match weather with
    | None =>
        print "Error: Could not retrieve weather information." >> Ret VNone
    | Some weather =>
        let string_weather :=
          "The weather for " +:+ format_value city +:+ " is "
          +:+ format_value (description weather) +:+ " with "
          +:+ format_value (temp weather) +:+ "°C." in
        say audio string_weather >> Ret VNone
    end.

Definition accept_game : proc value :=
  print "Accepting game..." >>
  let* thread := thread_start (Watcher WInit) in
  Ret VNone.

Definition idle_mouse : proc value :=
  print "Idling mouse..." >>
  call NewMouseController >>
  call IdleMouse >>
  Ret VNone.

Definition queue_up : proc value :=
  print "Queueing up..." >>
  call (StartFile "C:/Users/Public/Desktop/League of Legends.lnk") >>
  Ret VNone.

Definition close_computer (audio : value) : proc value :=
  print "Closing computer..." >>
  say audio "o7" >>
  call (System "shutdown /s /f /t 0") >>
  Ret VNone.

Definition exit (audio : value) : proc value :=
  print "Exiting program..." >>
  say audio "o7" >>
  Exit 0.

(** *** The dispatch table

    [self.available_jobs]: each entry binds the keyword dictionary to the
    parameters of the function, as calling it with [**function_args] does.
    Every function takes [**kwargs], so unknown keys are accepted; a
    parameter without default that is not supplied is a [TypeError]. *)

Definition handler : Type := gmap string value -> proc value.

Definition available_jobs : list (string * handler) :=
  [ ("help", fun kw => help (kwarg kw "audio" (VBool false)));
    ("ask_question", fun kw =>
       match kw !! "question" with
       | Some question =>
           ask_question question (kwarg kw "audio" (VBool false))
       | None =>
           Raise (TypeError
             "Employer.ask_question() missing 1 required positional argument: 'question'")
       end);
    ("check_new_emails", fun kw =>
       check_new_emails (kwarg kw "audio" (VBool false)));
    ("start_checking_new_emails", fun kw =>
       start_checking_new_emails (kwarg kw "audio" (VBool false)));
    ("stop_checking_new_emails", fun kw => stop_checking_new_emails);
    ("weather", fun kw =>
       weather (kwarg kw "city" VNone) (kwarg kw "audio" (VBool false)));
    ("accept_game", fun kw => accept_game);
    ("idle_mouse", fun kw => idle_mouse);
    ("queue_up", fun kw => queue_up);
    ("close_computer", fun kw =>
       close_computer (kwarg kw "audio" (VBool false)));
    ("exit", fun kw => exit (kwarg kw "audio" (VBool false))) ].

(** [list(self.available_jobs.values())], each function by its name. *)
Definition available_functions : list string :=
  List.map fst available_jobs.

Definition job_on_command (self : Employer) (user_input : string)
  : proc value :=
  call (GetFunctionToCall user_input available_functions) >>
  let bot_response :=
    get_function_to_call E user_input available_functions in
  match bot_response with
  | None =>
      print "Error: Could not determine function to call." >> Ret VNone
  | Some bot_response =>
      let function_name := name bot_response in
      let function_args := args bot_response in
      let function_args := <["audio" := VBool (audio self)]> function_args in
      match assoc function_name available_jobs with
      | Some job => job function_args >> Ret VNone
      | None => Ret VNone
      end
  end.

(** *** The workers *)

(** One step of [wrapper] in [start_checking_new_emails]. *)
Definition step_poller (audio : value) (pc : poller_pc) (s : shared)
  : poller_pc * shared :=
  match pc with
  | PCheck =>
      if bool_decide (is_Some (active_jobs s !! "check_new_emails"))
      then (PWork, s) else (PDone, s)
  | PWork => (PSleep, snd (exec (check_new_emails audio) s))
  | PSleep => (PCheck, emit (Sleep (60 * 15)) s)
  | PDone => (PDone, s)
  end.

(** One step of [wrapper] in [accept_game]. *)
Definition step_watcher (pc : watcher_pc) (s : shared)
  : watcher_pc * shared :=
  match pc with
  | WInit => (WLook, emit (Call NewMouseController) s)
  | WLook =>
      let s1 := bump_shots (emit (Call (TakeScreenshot true)) s) in
      let s2 := emit (Call (FindTextInScreenshot "accept!")) s1 in
      match find_text_in_screenshot E (shots s) "accept!" with
      | Some accept_object =>
          match index0 accept_object with
          | inr bbox =>
              (WDone,
               emit (Call ClickLeftButton) (emit (Call (GoToCenterOfBbox bbox)) s2))
          | inl e => (WCrashed e, s2)
          end
      | None => (WSleep, s2)
      end
  | WSleep => (WLook, emit (Sleep 5) s)
  | WDone => (WDone, s)
  | WCrashed e => (WCrashed e, s)
  end.

Definition step_thread (t : nat) (s : shared) : option shared :=
  match threads s !! t with
  | Some th =>
      if thread_finished th then None
      else
        match th with
        | Poller audio pc =>
            let '(pc', s') := step_poller audio pc s in
            Some (set_threads (<[t := Poller audio pc']> (threads s')) s')
        | Watcher pc =>
            let '(pc', s') := step_watcher pc s in
            Some (set_threads (<[t := Watcher pc']> (threads s')) s')
        end
  | None => None
  end.

(** *** Interleaving

    A configuration is the shared store and what the control thread still
    has to run.  A schedule names, step by step, who runs next. *)

Record config : Type := {
  sh : shared;
  main : proc value;
}.

Inductive pick : Type :=
  | Main
  | Worker (t : nat).

Definition step_main (c : config) : option config :=
  match main c with
  | Atomic u k => Some {| sh := u (sh c); main := k (sh c) |}
  | Join t k =>
      if finished t (sh c) then Some {| sh := sh c; main := k |} else None
  | _ => None
  end.

Definition step (p : pick) (c : config) : option config :=
  match p with
  | Main => step_main c
  | Worker t =>
      match step_thread t (sh c) with
      | Some s' => Some {| sh := s'; main := main c |}
      | None => None
      end
  end.

(** A thread that cannot move (blocked or finished) is skipped. *)
Fixpoint run (sched : list pick) (c : config) : config :=
  match sched with
  | [] => c
  | p :: rest =>
      match step p c with
      | Some c' => run rest c'
      | None => run rest c
      end
  end.

(** The control thread has left its code: returned, raised or exited. *)
Definition main_done (c : config) : bool :=
  match main c with
  | Ret _ | Raise _ | Exit _ => true
  | _ => false
  end.

End WithCollaborators.

(** ** A concrete world, for running the code

    The resolver knows five utterances; the coordinates service knows no
    city; the mailbox holds two messages at the first poll and none later;
    the screen never shows the accept button. *)

Definition demo_resolver (user_input : string) (functions : list string)
  : option bot_response :=
  if (user_input =? "what commands can you run")%string then
    Some {| name := "help"; args := ∅ |}
  else if (user_input =? "what's the weather in Paris")%string then
    Some {| name := "weather"; args := {[ "city" := VStr "Paris" ]} |}
  else if (user_input =? "what's the weather")%string then
    Some {| name := "weather"; args := {[ "audio" := VBool true ]} |}
  else if (user_input =? "ask something")%string then
    Some {| name := "ask_question"; args := ∅ |}
  else if (user_input =? "dance")%string then
    Some {| name := "dance"; args := ∅ |}
  else None.

Definition demo : Env := {|
  get_function_to_call := demo_resolver;
  ai_ask_question := fun _ => Some "42";
  get_all_commands := ["help"; "weather"; "exit"];
  get_new_messages := fun n =>
    match n with 0 => [VStr "m1"; VStr "m2"] | _ => [] end;
  format_message := fun m => match m with VStr s => s | _ => "?" end;
  geocoder_ip := fun _ =>
    {| geo_city := VStr "Krakow";
       geo_latlng := VList [VInt 50; VInt 20] |};
  get_coordinates_for_city_name := fun _ => (VNone, VNone);
  get_weather_for_coordinates := fun _ _ =>
    Some {| description := VStr "clear sky"; temp := VInt 21 |};
  find_text_in_screenshot := fun _ _ => None;
  repr := fun _ => "?";
|}.

(** The same world with a geolocation service that found nothing. *)
Definition demo_lost : Env := {|
  get_function_to_call := demo_resolver;
  ai_ask_question := ai_ask_question demo;
  get_all_commands := get_all_commands demo;
  get_new_messages := get_new_messages demo;
  format_message := format_message demo;
  geocoder_ip := fun _ => {| geo_city := VNone; geo_latlng := VList [] |};
  get_coordinates_for_city_name := get_coordinates_for_city_name demo;
  get_weather_for_coordinates := get_weather_for_coordinates demo;
  find_text_in_screenshot := find_text_in_screenshot demo;
  repr := repr demo;
|}.

(** The same collaborators with another resolver. *)
Definition with_resolver (E : Env)
  (f : string -> list string -> option bot_response) : Env := {|
  get_function_to_call := f;
  ai_ask_question := ai_ask_question E;
  get_all_commands := get_all_commands E;
  get_new_messages := get_new_messages E;
  format_message := format_message E;
  geocoder_ip := geocoder_ip E;
  get_coordinates_for_city_name := get_coordinates_for_city_name E;
  get_weather_for_coordinates := get_weather_for_coordinates E;
  find_text_in_screenshot := find_text_in_screenshot E;
  repr := repr E;
|}.

(** A resolver that answers like [demo_resolver] but claims the opposite
    output mode wherever it mentions one. *)
Definition demo_resolver_muted (user_input : string) (functions : list string)
  : option bot_response :=
  match demo_resolver user_input functions with
  | Some r =>
      Some {| name := name r;
              args := <["audio" := VStr "no"]> (args r) |}
  | None => None
  end.

(** Two answers of the resolver that differ at most in ["audio"]. *)
Definition same_up_to_audio (a b : option bot_response) : Prop :=
  match a, b with
  | Some r1, Some r2 =>
      name r1 = name r2 /\
      delete "audio" (args r1) = delete "audio" (args r2)
  | None, None => True
  | _, _ => False
  end.

(** ** Observing a run *)

(** The events appended between store [s] and the later store [s']. *)
Definition since (s s' : shared) : list event :=
  drop (length (trace s)) (trace s').

(** ** Sequences of job commands run by the control thread *)

Inductive command : Type :=
  | StartChecking (audio : value)
  | StopChecking
  | AcceptGame.

Definition perform (c : command) : proc value :=
  match c with
  | StartChecking audio => start_checking_new_emails audio
  | StopChecking => stop_checking_new_emails
  | AcceptGame => accept_game
  end.

Fixpoint program (cs : list command) : proc value :=
  match cs with
  | [] => Ret VNone
  | c :: rest => perform c >> program rest
  end.

(** Where the control thread stands inside a command: what is left of
    the function body after each of its accesses to the shared store. *)
Inductive phase : Type :=
  | Between
  | StartPrinted (audio : value)   (* the membership test comes next *)
  | StartTested (audio : value)    (* key was absent; thread start next *)
  | StartSpawned (t : nat)         (* thread started; registration next *)
  | StopPrinted                    (* the membership test comes next *)
  | StopTested                     (* key was present; lookup next *)
  | StopJoining (t : nat)          (* in [join] *)
  | StopJoined                     (* [del] comes next *)
  | AcceptPrinted                  (* thread start next *)
  | Crashed (e : exn).             (* an exception is on its way out *)

Definition residual (ph : phase) : proc value :=
  match ph with
  | Between => Ret VNone
  | StartPrinted audio =>
      let* present := job_present "check_new_emails" in
      if negb present then
        let* thread := thread_start (Poller audio PCheck) in
        job_set "check_new_emails" thread >> Ret VNone
      else Ret VNone
  | StartTested audio =>
      let* thread := thread_start (Poller audio PCheck) in
      job_set "check_new_emails" thread >> Ret VNone
  | StartSpawned t => job_set "check_new_emails" t >> Ret VNone
  | StopPrinted =>
      let* present := job_present "check_new_emails" in
      if present then
        let* thread := job_get "check_new_emails" in
        join thread >> job_del "check_new_emails" >> Ret VNone
      else Ret VNone
  | StopTested =>
      let* thread := job_get "check_new_emails" in
      join thread >> job_del "check_new_emails" >> Ret VNone
  | StopJoining t => join t >> job_del "check_new_emails" >> Ret VNone
  | StopJoined => job_del "check_new_emails" >> Ret VNone
  | AcceptPrinted =>
      let* thread := thread_start (Watcher WInit) in Ret VNone
  | Crashed e => Raise e
  end.

(** The control thread as an automaton over [phase]: one access to the
    shared store per move, [None] when it cannot move ([join] on a
    running thread, or nothing left to run). *)
Definition next (ph : phase) (cs : list command) (s : shared)
  : option (phase * list command * shared) :=
  match ph with
  | Between =>
      match cs with
      | [] => None
      | StartChecking audio :: rest =>
          Some (StartPrinted audio, rest,
                emit (Print "Checking new emails every 15 minutes...") s)
      | StopChecking :: rest =>
          Some (StopPrinted, rest,
                emit (Print "Stopping checking new emails...") s)
      | AcceptGame :: rest =>
          Some (AcceptPrinted, rest, emit (Print "Accepting game...") s)
      end
  | StartPrinted audio =>
      if bool_decide (is_Some (active_jobs s !! "check_new_emails"))
      then Some (Between, cs, s)
      else Some (StartTested audio, cs, s)
  | StartTested audio =>
      Some (StartSpawned (length (threads s)), cs,
            set_threads (threads s ++ [Poller audio PCheck]) s)
  | StartSpawned t =>
      Some (Between, cs,
            set_jobs (<["check_new_emails" := t]> (active_jobs s)) s)
  | StopPrinted =>
      if bool_decide (is_Some (active_jobs s !! "check_new_emails"))
      then Some (StopTested, cs, s)
      else Some (Between, cs, s)
  | StopTested =>
      match active_jobs s !! "check_new_emails" with
      | Some t => Some (StopJoining t, cs, s)
      | None => Some (Crashed (KeyError "check_new_emails"), cs, s)
      end
  | StopJoining t =>
      if finished t s then Some (StopJoined, cs, s) else None
  | StopJoined =>
      let s' := set_jobs (delete "check_new_emails" (active_jobs s)) s in
      match active_jobs s !! "check_new_emails" with
      | Some _ => Some (Between, cs, s')
      | None => Some (Crashed (KeyError "check_new_emails"), cs, s')
      end
  | AcceptPrinted =>
      Some (Between, cs, set_threads (threads s ++ [Watcher WInit]) s)
  | Crashed _ => None
  end.

(** Every live mail poller is the thread registered under the key, or the
    one the control thread has started and is about to register. *)
Definition owned (s : shared) (pending : option nat) : Prop :=
  forall t th,
    threads s !! t = Some th -> is_live_poller th = true ->
    active_jobs s !! "check_new_emails" = Some t \/ pending = Some t.

Definition good (ph : phase) (s : shared) : Prop :=
  match ph with
  | StartTested _ =>
      owned s None /\ active_jobs s !! "check_new_emails" = None
  | StartSpawned t =>
      owned s (Some t) /\ active_jobs s !! "check_new_emails" = None
  | StopTested =>
      owned s None /\ is_Some (active_jobs s !! "check_new_emails")
  | StopJoining t =>
      owned s None /\ active_jobs s !! "check_new_emails" = Some t
  | StopJoined =>
      owned s None /\
      exists t, active_jobs s !! "check_new_emails" = Some t /\
                finished t s = true
  | _ => owned s None
  end.

Definition supervised (c : config) : Prop :=
  exists ph cs, main c = (residual ph >> program cs) /\ good ph (sh c).

(** The control thread is inside [stop_checking_new_emails], before the
    [del], while thread [t] is registered and still running. *)
Definition stop_pending (t : nat) (c : config) : Prop :=
  active_jobs (sh c) !! "check_new_emails" = Some t /\
  (exists audio pc,
      threads (sh c) !! t = Some (Poller audio pc) /\ pc <> PDone) /\
  exists cs,
    main c = program (StopChecking :: cs) \/
    main c = (residual StopPrinted >> program cs) \/
    main c = (residual StopTested >> program cs) \/
    main c = (residual (StopJoining t) >> program cs).

(** ** Vocabulary for the properties of the remaining code *)

(** The event of [if audio: Audio.text_to_speech(text) else: print(text)]. *)
Definition say_event (audio : value) (text : string) : event :=
  if truthy audio then Speak text else Print text.

(** The store after a run of events. *)
Definition emit_all (evs : list event) (s : shared) : shared :=
  fold_left (fun s e => emit e s) evs s.

(** The durations slept, in order. *)
Definition sleeps (evs : list event) : list Z :=
  flat_map (fun e => match e with Sleep secs => [secs] | _ => [] end) evs.

(** The clicks made. *)
Definition clicks (evs : list event) : nat :=
  length (List.filter
            (fun e => match e with Call ClickLeftButton => true | _ => false end)
            evs).

(** What one run of [check_new_emails] does to the outside world, given
    the messages the mailbox hands out. *)
Definition mail_events (E : Env) (audio : value) (messages : list value)
  : list event :=
  [Print "Checking new emails..."; Call GetNewMessages;
   say_event audio ("You have " +:+ str_of_nat (length messages)
                    +:+ " new messages.")]
  ++ flat_map (fun message =>
                 [Call (FormatMessage message);
                  say_event audio (format_message E message)]) messages.

(** What a watcher does that looks [n] times in vain and then finds the
    button at [bbox]. *)
Definition watcher_events (n : nat) (bbox : value) : list event :=
  Call NewMouseController
  :: concat (repeat [Call (TakeScreenshot true);
                     Call (FindTextInScreenshot "accept!"); Sleep 5] n)
  ++ [Call (TakeScreenshot true); Call (FindTextInScreenshot "accept!");
      Call (GoToCenterOfBbox bbox); Call ClickLeftButton].

(** The job map holds nothing but the mail poller, under its key. *)
Definition registry_ok (s : shared) : Prop :=
  forall k t,
    active_jobs s !! k = Some t ->
    k = "check_new_emails" /\
    exists audio pc, threads s !! t = Some (Poller audio pc).

(** The actions that start or stop background work. *)
Definition job_control : list string :=
  ["start_checking_new_emails"; "stop_checking_new_emails"; "accept_game"].

(** [good], and moreover: the job map is as [registry_ok] says, the
    control thread is not on its way out with an exception, and a thread
    it is about to register is a poller. *)
Definition well_kept (ph : phase) (s : shared) : Prop :=
  good ph s /\ registry_ok s /\
  match ph with
  | Crashed _ => False
  | StartSpawned t => exists audio pc, threads s !! t = Some (Poller audio pc)
  | _ => True
  end.

(** The world of [demo] with a screen that shows the accept button on the
    third screenshot, and only there. *)
Definition demo_button : Env := {|
  get_function_to_call := demo_resolver;
  ai_ask_question := ai_ask_question demo;
  get_all_commands := get_all_commands demo;
  get_new_messages := get_new_messages demo;
  format_message := format_message demo;
  geocoder_ip := geocoder_ip demo;
  get_coordinates_for_city_name := fun _ => (VInt 48, VInt 2);
  get_weather_for_coordinates := fun _ _ => None;
  find_text_in_screenshot := fun n _ =>
    match n with
    | 2 => Some (VList [VList [VInt 10; VInt 20; VInt 30; VInt 40]])
    | _ => None
    end;
  repr := repr demo;
|}.

(** The world of [demo_button] with a weather service that answers. *)
Definition demo_sunny : Env := {|
  get_function_to_call := demo_resolver;
  ai_ask_question := fun _ => None;
  get_all_commands := get_all_commands demo;
  get_new_messages := get_new_messages demo;
  format_message := format_message demo;
  geocoder_ip := geocoder_ip demo;
  get_coordinates_for_city_name := get_coordinates_for_city_name demo_button;
  get_weather_for_coordinates := get_weather_for_coordinates demo;
  find_text_in_screenshot := find_text_in_screenshot demo;
  repr := repr demo;
|}.

(** Two answers of the resolver that name the same action and agree on
    the two arguments any action reads besides ["audio"]. *)
Definition same_call (a b : option bot_response) : Prop :=
  match a, b with
  | Some r1, Some r2 =>
      name r1 = name r2 /\
      args r1 !! "question" = args r2 !! "question" /\
      args r1 !! "city" = args r2 !! "city"
  | None, None => True
  | _, _ => False
  end.

(** A resolver that answers like [demo_resolver] and adds arguments no
    action knows. *)
Definition demo_resolver_chatty (user_input : string)
  (functions : list string) : option bot_response :=
  match demo_resolver user_input functions with
  | Some r =>
      Some {| name := name r;
              args := <["mood" := VStr "cheerful"]>
                        (<["audio" := VInt 7]> (args r)) |}
  | None => None
  end.

(** Code that leaves the job map and the threads as they are. *)
Definition quiet (p : proc value) : Prop :=
  forall s,
    active_jobs (snd (exec p s)) = active_jobs s /\
    threads (snd (exec p s)) = threads s.

(** * Properties *)

(** ** The monad *)

Lemma exec_bind {A B : Type} (p : proc A) (f : A -> proc B) (s : shared) :
  exec (bind p f) s =
  match exec p s with
  | (Returned a, s1) => exec (f a) s1
  | (Raised e, s1) => (Raised e, s1)
  | (Exited c, s1) => (Exited c, s1)
  | (Blocked t, s1) => (Blocked t, s1)
  end.
Proof.
  revert s. induction p as [a | e | c | u k IH | t k IH]; intros s; simpl.
  - reflexivity.
  - reflexivity.
  - reflexivity.
  - apply IH.
  - destruct (finished t s); [apply IH | reflexivity].
Qed.

Lemma bind_ret_l {A B : Type} (a : A) (f : A -> proc B) :
  bind (Ret a) f = f a.
Proof. reflexivity. Qed.

Lemma bind_assoc {A B C : Type} (p : proc A) (f : A -> proc B)
  (g : B -> proc C) (s : shared) :
  exec (bind (bind p f) g) s = exec (bind p (fun a => bind (f a) g)) s.
Proof.
  rewrite !exec_bind. destruct (exec p s) as [[a | e | c | t] s1];
    [ now rewrite exec_bind | reflexivity .. ].
Qed.

(** ** Traces *)

Lemma since_refl (s : shared) : since s s = [].
Proof. unfold since. apply drop_all. Qed.

Lemma since_app (s s' : shared) (evs : list event) :
  trace s' = (trace s ++ evs)%list -> since s s' = evs.
Proof. unfold since. intros ->. apply drop_app_length. Qed.

Lemma since_emit1 (s : shared) (e1 : event) :
  since s (emit e1 s) = [e1].
Proof. apply since_app. reflexivity. Qed.

Lemma since_emit2 (s : shared) (e1 e2 : event) :
  since s (emit e2 (emit e1 s)) = [e1; e2].
Proof. apply since_app. simpl. now rewrite <- app_assoc. Qed.

Lemma since_emit3 (s : shared) (e1 e2 e3 : event) :
  since s (emit e3 (emit e2 (emit e1 s))) = [e1; e2; e3].
Proof. apply since_app. simpl. now rewrite <- !app_assoc. Qed.

Lemma since_emit4 (s : shared) (e1 e2 e3 e4 : event) :
  since s (emit e4 (emit e3 (emit e2 (emit e1 s)))) = [e1; e2; e3; e4].
Proof. apply since_app. simpl. now rewrite <- !app_assoc. Qed.

Lemma exec_say (audio : value) (text : string) (s : shared) :
  exec (say audio text) s =
  (Returned tt, emit (if truthy audio then Speak text else Print text) s).
Proof. unfold say. destruct (truthy audio); reflexivity. Qed.

(** ** help (C6) *)

Lemma exec_help (E : Env) (audio : value) (s : shared) :
  exec (help E audio) s =
  (Returned VNone,
   emit ((if truthy audio then Speak else Print)
           ("Available commands are: "
            +:+ String.concat ", " (get_all_commands E) +:+ "."))
     (emit (Call GetAllCommands) (emit (Print "Getting all commands...") s))).
Proof.
  unfold help. rewrite !exec_bind. simpl. rewrite !exec_bind, exec_say.
  destruct (truthy audio); reflexivity.
Qed.

(** C6, as the spec states it, fails: with three registered commands the
    joined list ["help, weather, exit"] is not what is written; the line
    written carries a prefix and a full stop, after a progress line. *)
Lemma help_output_counterexample :
  let joined := String.concat ", " (get_all_commands demo) in
  let s' := snd (exec (help demo (VBool false)) initial) in
  joined = "help, weather, exit" /\
  output (since initial s') =
    [Print "Getting all commands...";
     Print "Available commands are: help, weather, exit."] /\
  ~ In (Print joined) (output (since initial s')) /\
  ~ In (Speak joined) (output (since initial s')).
Proof.
  cbv zeta. split; [reflexivity |]. split; [reflexivity |].
  split; vm_compute; intros H; decompose [or] H; discriminate || contradiction.
Qed.

(** C6, amended: [help] prints the progress line, asks [Commands] for the
    command names, and writes to the output channel (spoken when [audio]
    is true, printed otherwise) the sentence made of
    ["Available commands are: "], the names joined with [", "], and ["."];
    it returns [None]. *)
Theorem help_output (E : Env) (audio : value) (s : shared) :
  let s' := snd (exec (help E audio) s) in
  fst (exec (help E audio) s) = Returned VNone /\
  output (since s s') =
    [Print "Getting all commands...";
     (if truthy audio then Speak else Print)
       ("Available commands are: "
        +:+ String.concat ", " (get_all_commands E) +:+ ".")] /\
  active_jobs s' = active_jobs s /\ threads s' = threads s.
Proof.
  cbv zeta. rewrite exec_help. simpl. rewrite since_emit3.
  repeat split. destruct (truthy audio); reflexivity.
Qed.

(** ** weather (C7, C10) *)

Lemma exec_weather_named (E : Env) (city audio : value) (s : shared) :
  is_none city || eq_empty_str city = false ->
  exec (weather E city audio) s =
  let s1 := emit (Call (GetCoordinatesForCityName city))
              (emit (Print "Getting weather...") s) in
  let '(lat, lon) := get_coordinates_for_city_name E city in
  if is_none lat || is_none lon then
    (Returned VNone,
     emit (Print "Error: Could not retrieve coordinates for the given city.")
       s1)
  else
    let s2 := emit (Call (GetWeatherForCoordinates lat lon)) s1 in
    match get_weather_for_coordinates E lat lon with
    | None =>
        (Returned VNone,
         emit (Print "Error: Could not retrieve weather information.") s2)
    | Some w =>
        (Returned VNone,
         emit ((if truthy audio then Speak else Print)
                 ("The weather for " +:+ format_value E city +:+ " is "
                  +:+ format_value E (description w) +:+ " with "
                  +:+ format_value E (temp w) +:+ "°C.")) s2)
    end.
Proof.
  intros Hcity. unfold weather. rewrite Hcity. simpl.
  destruct (get_coordinates_for_city_name E city) as [lat lon]. simpl.
  destruct (is_none lat || is_none lon); [reflexivity |]. simpl.
  destruct (get_weather_for_coordinates E lat lon) as [w |]; simpl.
  - rewrite exec_bind, exec_say. destruct (truthy audio); reflexivity.
  - reflexivity.
Qed.

Lemma exec_weather_here (E : Env) (city audio : value) (s : shared) :
  is_none city || eq_empty_str city = true ->
  exec (weather E city audio) s =
  let s1 := emit (Call (GeocoderIp "me"))
              (emit (Print "Getting weather...") s) in
  let g := geocoder_ip E "me" in
  match unpack2 (geo_latlng g) with
  | inl e => (Raised e, s1)
  | inr (lat, lon) =>
      if is_none lat || is_none lon then
        (Returned VNone,
         emit (Print
                 "Error: Could not retrieve coordinates for the given city.")
           s1)
      else
        let s2 := emit (Call (GetWeatherForCoordinates lat lon)) s1 in
        match get_weather_for_coordinates E lat lon with
        | None =>
            (Returned VNone,
             emit (Print "Error: Could not retrieve weather information.") s2)
        | Some w =>
            (Returned VNone,
             emit ((if truthy audio then Speak else Print)
                     ("The weather for " +:+ format_value E (geo_city g)
                      +:+ " is " +:+ format_value E (description w)
                      +:+ " with " +:+ format_value E (temp w) +:+ "°C."))
               s2)
        end
  end.
Proof.
  intros Hcity. unfold weather. rewrite Hcity. simpl.
  destruct (unpack2 (geo_latlng (geocoder_ip E "me"))) as [e | [lat lon]];
    simpl; [reflexivity |].
  destruct (is_none lat || is_none lon); [reflexivity |]. simpl.
  destruct (get_weather_for_coordinates E lat lon) as [w |]; simpl.
  - rewrite exec_bind, exec_say. destruct (truthy audio); reflexivity.
  - reflexivity.
Qed.

(** C7: when [weather] is called with a named city and the coordinates
    collaborator gives no latitude or no longitude, the action prints the
    coordinates error and returns: the only collaborator called is the
    coordinates lookup, and the weather lookup is never called. *)
Theorem weather_coordinates_failure (E : Env) (city audio : value)
  (s : shared) (lat lon : value) :
  is_none city || eq_empty_str city = false ->
  get_coordinates_for_city_name E city = (lat, lon) ->
  is_none lat || is_none lon = true ->
  let s' := snd (exec (weather E city audio) s) in
  fst (exec (weather E city audio) s) = Returned VNone /\
  since s s' =
    [Print "Getting weather...";
     Call (GetCoordinatesForCityName city);
     Print "Error: Could not retrieve coordinates for the given city."] /\
  (forall la lo, ~ In (Call (GetWeatherForCoordinates la lo)) (since s s')) /\
  active_jobs s' = active_jobs s /\ threads s' = threads s.
Proof.
  intros Hcity Hco Hfail. cbv zeta.
  rewrite (exec_weather_named E city audio s Hcity). cbv zeta.
  rewrite Hco, Hfail. simpl. rewrite since_emit3.
  repeat split. intros la lo Hin. simpl in Hin.
  decompose [or] Hin; discriminate || contradiction.
Qed.

Lemma weather_coordinates_failure_witness :
  let s' := snd (exec (weather demo (VStr "Paris") (VBool false)) initial) in
  fst (exec (weather demo (VStr "Paris") (VBool false)) initial)
    = Returned VNone /\
  since initial s' =
    [Print "Getting weather...";
     Call (GetCoordinatesForCityName (VStr "Paris"));
     Print "Error: Could not retrieve coordinates for the given city."] /\
  (forall la lo,
      ~ In (Call (GetWeatherForCoordinates la lo)) (since initial s')) /\
  active_jobs s' = active_jobs initial /\ threads s' = threads initial.
Proof.
  apply (weather_coordinates_failure demo (VStr "Paris") (VBool false)
           initial VNone VNone); reflexivity.
Defined.

(** C10: when [weather] is called with [city] equal to [None] or to the
    empty string, the IP geolocation is asked, the coordinates-by-name
    collaborator is not called, any weather lookup is made at the
    geolocation's coordinates, and the sentence reported names the
    geolocation's city. *)
Theorem weather_without_city (E : Env) (city audio : value) (s : shared) :
  city = VNone \/ city = VStr "" ->
  let s' := snd (exec (weather E city audio) s) in
  let g := geocoder_ip E "me" in
  In (Call (GeocoderIp "me")) (since s s') /\
  (forall c, ~ In (Call (GetCoordinatesForCityName c)) (since s s')) /\
  (forall la lo,
      In (Call (GetWeatherForCoordinates la lo)) (since s s') ->
      unpack2 (geo_latlng g) = inr (la, lo)) /\
  (forall la lo w,
      unpack2 (geo_latlng g) = inr (la, lo) ->
      is_none la || is_none lo = false ->
      get_weather_for_coordinates E la lo = Some w ->
      since s s' =
        [Print "Getting weather...";
         Call (GeocoderIp "me");
         Call (GetWeatherForCoordinates la lo);
         (if truthy audio then Speak else Print)
           ("The weather for " +:+ format_value E (geo_city g) +:+ " is "
            +:+ format_value E (description w) +:+ " with "
            +:+ format_value E (temp w) +:+ "°C.")]).
Proof.
  intros Hcity. cbv zeta.
  assert (Hmiss : is_none city || eq_empty_str city = true)
    by (destruct Hcity as [-> | ->]; reflexivity).
  rewrite (exec_weather_here E city audio s Hmiss). cbv zeta.
  destruct (unpack2 (geo_latlng (geocoder_ip E "me"))) as [e | [lat lon]].
  { simpl. rewrite since_emit2. repeat split.
    - simpl. tauto.
    - intros c Hin. simpl in Hin.
      decompose [or] Hin; discriminate || contradiction.
    - intros la lo Hin. simpl in Hin.
      decompose [or] Hin; discriminate || contradiction.
    - intros la lo w Hu. discriminate Hu. }
  destruct (is_none lat || is_none lon) eqn:Hnone.
  { simpl. rewrite since_emit3. repeat split.
    - simpl. tauto.
    - intros c Hin. simpl in Hin.
      decompose [or] Hin; discriminate || contradiction.
    - intros la lo Hin. simpl in Hin.
      decompose [or] Hin; discriminate || contradiction.
    - intros la lo w Hu Hnn. injection Hu as <- <-. congruence. }
  cbv zeta.
  destruct (get_weather_for_coordinates E lat lon) as [w |] eqn:Hw.
  - simpl. rewrite since_emit4. repeat split.
    + simpl. tauto.
    + intros c Hin. simpl in Hin. destruct (truthy audio);
        decompose [or] Hin; discriminate || contradiction.
    + intros la lo Hin. simpl in Hin. destruct (truthy audio);
        decompose [or] Hin; try discriminate; try contradiction; congruence.
    + intros la lo w' Hu _ Hw'. injection Hu as <- <-.
      rewrite Hw in Hw'. injection Hw' as <-. reflexivity.
  - simpl. rewrite since_emit4. repeat split.
    + simpl. tauto.
    + intros c Hin. simpl in Hin.
      decompose [or] Hin; discriminate || contradiction.
    + intros la lo Hin. simpl in Hin.
      decompose [or] Hin; try discriminate; try contradiction; congruence.
    + intros la lo w' Hu _ Hw'. injection Hu as <- <-. congruence.
Qed.

Lemma weather_without_city_witness :
  let s' := snd (exec (weather demo (VStr "") (VBool false)) initial) in
  In (Call (GeocoderIp "me")) (since initial s') /\
  (forall c, ~ In (Call (GetCoordinatesForCityName c)) (since initial s')) /\
  since initial s' =
    [Print "Getting weather...";
     Call (GeocoderIp "me");
     Call (GetWeatherForCoordinates (VInt 50) (VInt 20));
     Print "The weather for Krakow is clear sky with 21°C."].
Proof.
  destruct (weather_without_city demo (VStr "") (VBool false) initial
              (or_intror eq_refl)) as (Hgeo & Hno & _ & Hsay).
  split; [exact Hgeo |]. split; [exact Hno |].
  exact (Hsay (VInt 50) (VInt 20)
           {| description := VStr "clear sky"; temp := VInt 21 |}
           eq_refl eq_refl eq_refl).
Defined.

Lemma weather_named_city_uses_lookup (E : Env) (city audio : value)
  (s : shared) :
  is_none city || eq_empty_str city = false ->
  let s' := snd (exec (weather E city audio) s) in
  In (Call (GetCoordinatesForCityName city)) (since s s') /\
  (forall who, ~ In (Call (GeocoderIp who)) (since s s')).
Proof.
  intros Hcity. cbv zeta.
  rewrite (exec_weather_named E city audio s Hcity). cbv zeta.
  destruct (get_coordinates_for_city_name E city) as [lat lon].
  destruct (is_none lat || is_none lon).
  { simpl. rewrite since_emit3. split; [simpl; tauto |].
    intros who Hin. simpl in Hin.
    decompose [or] Hin; discriminate || contradiction. }
  destruct (get_weather_for_coordinates E lat lon) as [w |];
    simpl; rewrite since_emit4; (split; [simpl; tauto |]);
    intros who Hin; simpl in Hin; destruct (truthy audio);
    decompose [or] Hin; discriminate || contradiction.
Qed.

(** ** job_on_command (C3, C4, C9) *)

Lemma available_functions_names (E : Env) :
  available_functions E =
  ["help"; "ask_question"; "check_new_emails"; "start_checking_new_emails";
   "stop_checking_new_emails"; "weather"; "accept_game"; "idle_mouse";
   "queue_up"; "close_computer"; "exit"].
Proof. reflexivity. Qed.

Lemma job_on_command_no_match (E : Env) (self : Employer)
  (user_input : string) :
  get_function_to_call E user_input (available_functions E) = None ->
  job_on_command E self user_input =
  (call (GetFunctionToCall user_input (available_functions E)) >>
   print "Error: Could not determine function to call." >> Ret VNone).
Proof. intros H. unfold job_on_command. now rewrite H. Qed.

Lemma job_on_command_unknown (E : Env) (self : Employer)
  (user_input : string) (r : bot_response) :
  get_function_to_call E user_input (available_functions E) = Some r ->
  assoc (name r) (available_jobs E) = None ->
  job_on_command E self user_input =
  (call (GetFunctionToCall user_input (available_functions E)) >>
   Ret VNone).
Proof. intros H Hn. unfold job_on_command. now rewrite H, Hn. Qed.

Lemma job_on_command_known (E : Env) (self : Employer)
  (user_input : string) (r : bot_response) (job : handler) :
  get_function_to_call E user_input (available_functions E) = Some r ->
  assoc (name r) (available_jobs E) = Some job ->
  job_on_command E self user_input =
  (call (GetFunctionToCall user_input (available_functions E)) >>
   job (<["audio" := VBool (audio self)]> (args r)) >> Ret VNone).
Proof. intros H Hn. unfold job_on_command. now rewrite H, Hn. Qed.

(** C3, as the spec states it, fails: the resolver answers
    [ask_question] without a question, the call raises [TypeError], and
    the exception leaves [job_on_command]; nothing is written to the
    output channel. *)
Lemma handler_exception_counterexample :
  let r := exec (job_on_command demo {| audio := false |} "ask something")
             initial in
  fst r =
    Raised (TypeError
      "Employer.ask_question() missing 1 required positional argument: 'question'")
  /\ output (since initial (snd r)) = [].
Proof. cbv zeta. split; reflexivity. Qed.

(** C3, amended: [job_on_command] has no exception handler.  When the
    resolved action raises, the call of [job_on_command] ends with that
    same exception, in the store the action left: nothing is caught and
    nothing more is reported. *)
Theorem handler_exception_propagates (E : Env) (self : Employer)
  (user_input : string) (r : bot_response) (job : handler)
  (s s' : shared) (e : exn) :
  get_function_to_call E user_input (available_functions E) = Some r ->
  assoc (name r) (available_jobs E) = Some job ->
  exec (job (<["audio" := VBool (audio self)]> (args r)))
       (emit (Call (GetFunctionToCall user_input (available_functions E))) s)
    = (Raised e, s') ->
  exec (job_on_command E self user_input) s = (Raised e, s').
Proof.
  intros Hr Hjob Hraise.
  rewrite (job_on_command_known E self user_input r job Hr Hjob).
  rewrite exec_bind. simpl. rewrite exec_bind, Hraise. reflexivity.
Qed.

Lemma handler_exception_propagates_witness :
  exec (job_on_command demo_lost {| audio := true |} "what's the weather")
       initial
  = (Raised (ValueError "not enough values to unpack (expected 2)"),
     emit (Call (GeocoderIp "me"))
       (emit (Print "Getting weather...")
          (emit (Call (GetFunctionToCall "what's the weather"
                         (available_functions demo_lost))) initial))).
Proof.
  apply (handler_exception_propagates demo_lost {| audio := true |}
           "what's the weather"
           {| name := "weather"; args := {[ "audio" := VBool true ]} |}
           (fun kw => weather demo_lost (kwarg kw "city" VNone)
                        (kwarg kw "audio" (VBool false))));
    reflexivity.
Defined.

(** C4 at the failing input: the resolver answers the name ["dance"],
    which is no registered action.  No action runs and [None] is
    returned, but nothing at all is written to the output channel: the
    failure is not reported. *)
Theorem unknown_action_is_silent :
  let r := exec (job_on_command demo {| audio := false |} "dance") initial in
  get_function_to_call demo "dance" (available_functions demo)
    = Some {| name := "dance"; args := ∅ |} /\
  assoc "dance" (available_jobs demo) = None /\
  fst r = Returned VNone /\
  since initial (snd r) =
    [Call (GetFunctionToCall "dance" (available_functions demo))] /\
  output (since initial (snd r)) = [].
Proof. cbv zeta. repeat split; reflexivity. Qed.

(** The part of C4 that holds: no match is reported, and in neither case
    does an action run. *)
Lemma no_match_is_reported (E : Env) (self : Employer)
  (user_input : string) (s : shared) :
  get_function_to_call E user_input (available_functions E) = None ->
  exec (job_on_command E self user_input) s =
  (Returned VNone,
   emit (Print "Error: Could not determine function to call.")
     (emit (Call (GetFunctionToCall user_input (available_functions E))) s)).
Proof.
  intros H. now rewrite (job_on_command_no_match E self user_input H).
Qed.

Lemma unknown_action_runs_nothing (E : Env) (self : Employer)
  (user_input : string) (r : bot_response) (s : shared) :
  get_function_to_call E user_input (available_functions E) = Some r ->
  assoc (name r) (available_jobs E) = None ->
  exec (job_on_command E self user_input) s =
  (Returned VNone,
   emit (Call (GetFunctionToCall user_input (available_functions E))) s).
Proof.
  intros H Hn. now rewrite (job_on_command_unknown E self user_input r H Hn).
Qed.

Lemma available_jobs_with_resolver (E : Env)
  (f : string -> list string -> option bot_response) :
  available_jobs (with_resolver E f) = available_jobs E.
Proof. reflexivity. Qed.

Lemma insert_audio_same (v : value) (m1 m2 : gmap string value) :
  delete "audio" m1 = delete "audio" m2 ->
  <["audio" := v]> m1 = <["audio" := v]> m2.
Proof.
  intros H.
  rewrite <- (insert_delete_eq m1), <- (insert_delete_eq m2).
  now rewrite H.
Qed.

(** C9: the ["audio"] entry of the keyword dictionary handed to the
    action is always [self.audio]: whatever the resolver put under that
    key is overwritten before the call.  Hence two resolvers whose answers
    differ at most in ["audio"] make [job_on_command] run the very same
    code. *)
Theorem audio_flag_overrides_resolver (E : Env)
  (f1 f2 : string -> list string -> option bot_response)
  (self : Employer) (user_input : string) :
  same_up_to_audio (f1 user_input (available_functions E))
                   (f2 user_input (available_functions E)) ->
  job_on_command (with_resolver E f1) self user_input
    = job_on_command (with_resolver E f2) self user_input /\
  forall r job,
    f1 user_input (available_functions E) = Some r ->
    assoc (name r) (available_jobs E) = Some job ->
    exists kw : gmap string value,
      job_on_command (with_resolver E f1) self user_input =
        (call (GetFunctionToCall user_input (available_functions E)) >>
         job kw >> Ret VNone) /\
      kw !! "audio" = Some (VBool (audio self)) /\
      (forall dflt, kwarg kw "audio" dflt = VBool (audio self)) /\
      (forall k, k <> "audio" -> kw !! k = args r !! k).
Proof.
  intros Hsame. split.
  - unfold job_on_command. rewrite !available_jobs_with_resolver.
    change (available_functions (with_resolver E f1))
      with (available_functions E).
    change (available_functions (with_resolver E f2))
      with (available_functions E).
    simpl get_function_to_call.
    destruct (f1 user_input (available_functions E)) as [r1 |],
             (f2 user_input (available_functions E)) as [r2 |];
      simpl in Hsame; try contradiction; [| reflexivity].
    destruct Hsame as [Hname Hargs]. rewrite Hname.
    now rewrite (insert_audio_same (VBool (audio self)) _ _ Hargs).
  - intros r job Hr Hjob.
    exists (<["audio" := VBool (audio self)]> (args r)).
    split; [| split; [| split]].
    + apply (job_on_command_known (with_resolver E f1) self user_input r job);
        assumption.
    + apply lookup_insert_eq.
    + intros dflt. unfold kwarg. now rewrite lookup_insert_eq.
    + intros k Hk. now apply lookup_insert_ne.
Qed.

Lemma audio_flag_overrides_resolver_witness :
  job_on_command (with_resolver demo demo_resolver) {| audio := false |}
    "what's the weather"
  = job_on_command (with_resolver demo demo_resolver_muted)
      {| audio := false |} "what's the weather".
Proof.
  refine (proj1 (audio_flag_overrides_resolver demo demo_resolver
                   demo_resolver_muted {| audio := false |}
                   "what's the weather" _)).
  simpl. split; [reflexivity | vm_compute; reflexivity].
Defined.

(** ** Starting and stopping, the control thread alone (C2, C5, C8) *)

Lemma exec_start_absent (audio : value) (s : shared) :
  active_jobs s !! "check_new_emails" = None ->
  exec (start_checking_new_emails audio) s =
  (Returned VNone,
   let s1 := emit (Print "Checking new emails every 15 minutes...") s in
   set_jobs (<["check_new_emails" := length (threads s)]> (active_jobs s))
     (set_threads (threads s ++ [Poller audio PCheck]) s1)).
Proof.
  intros Habs. unfold start_checking_new_emails. simpl. rewrite Habs.
  rewrite bool_decide_false by (intros [x Hx]; discriminate Hx).
  reflexivity.
Qed.

Lemma exec_start_present (audio : value) (s : shared) :
  is_Some (active_jobs s !! "check_new_emails") ->
  exec (start_checking_new_emails audio) s =
  (Returned VNone, emit (Print "Checking new emails every 15 minutes...") s).
Proof.
  intros Hpre. unfold start_checking_new_emails. simpl.
  rewrite bool_decide_true by exact Hpre. reflexivity.
Qed.

Lemma exec_stop_absent (s : shared) :
  active_jobs s !! "check_new_emails" = None ->
  exec stop_checking_new_emails s =
  (Returned VNone, emit (Print "Stopping checking new emails...") s).
Proof.
  intros Habs. unfold stop_checking_new_emails. simpl. rewrite Habs.
  rewrite bool_decide_false by (intros [x Hx]; discriminate Hx).
  reflexivity.
Qed.

(** C5, as the spec states it, fails: with no job registered the call
    does not return [False], it returns [None]; and it is not without
    effect, it prints its progress line. *)
Lemma stop_without_job_counterexample :
  active_jobs initial !! "check_new_emails" = None /\
  fst (exec stop_checking_new_emails initial) = Returned VNone /\
  fst (exec stop_checking_new_emails initial) <> Returned (VBool false) /\
  since initial (snd (exec stop_checking_new_emails initial))
    = [Print "Stopping checking new emails..."].
Proof. repeat split. intros H. discriminate H. Qed.

(** C5, amended: when no job is registered under ["check_new_emails"],
    [stop_checking_new_emails] returns [None], leaves the job map and the
    threads unchanged, and its only effect is the progress line it
    prints. *)
Theorem stop_without_job (s : shared) :
  active_jobs s !! "check_new_emails" = None ->
  let s' := snd (exec stop_checking_new_emails s) in
  fst (exec stop_checking_new_emails s) = Returned VNone /\
  s' = emit (Print "Stopping checking new emails...") s /\
  active_jobs s' = active_jobs s /\
  threads s' = threads s /\
  since s s' = [Print "Stopping checking new emails..."].
Proof.
  intros Habs. cbv zeta. rewrite (exec_stop_absent s Habs). simpl.
  rewrite since_emit1. repeat split.
Qed.

Lemma stop_without_job_witness :
  let s' := snd (exec stop_checking_new_emails initial) in
  fst (exec stop_checking_new_emails initial) = Returned VNone /\
  s' = emit (Print "Stopping checking new emails...") initial /\
  active_jobs s' = active_jobs initial /\
  threads s' = threads initial /\
  since initial s' = [Print "Stopping checking new emails..."].
Proof. apply (stop_without_job initial). reflexivity. Defined.

Lemma filter_length_app {A : Type} (f : A -> bool) (l1 l2 : list A) :
  length (List.filter f (l1 ++ l2)) =
  length (List.filter f l1) + length (List.filter f l2).
Proof. rewrite List.filter_app. apply length_app. Qed.

Lemma accept_game_twice (s : shared) :
  watchers (snd (exec accept_game (snd (exec accept_game s))))
  = S (S (watchers s)).
Proof.
  unfold accept_game, watchers. simpl.
  rewrite !filter_length_app. simpl. lia.
Qed.

(** C8: every call of [accept_game] starts one more watcher thread,
    whatever threads exist already and whatever the job map holds: the
    new thread gets a fresh handle, the threads that were there are
    untouched, and the job map is not read or written.  Two calls in a
    row leave two more watchers. *)
Theorem accept_game_always_spawns (s : shared) :
  let s' := snd (exec accept_game s) in
  fst (exec accept_game s) = Returned VNone /\
  threads s' = (threads s ++ [Watcher WInit])%list /\
  threads s' !! length (threads s) = Some (Watcher WInit) /\
  watchers s' = S (watchers s) /\
  watchers (snd (exec accept_game s')) = S (S (watchers s)) /\
  live_pollers s' = live_pollers s /\
  active_jobs s' = active_jobs s /\
  active_jobs (snd (exec accept_game s')) = active_jobs s /\
  since s s' = [Print "Accepting game..."].
Proof.
  cbv zeta. split; [reflexivity |]. split; [reflexivity |].
  split; [| split; [| split; [| split; [| split; [| split]]]]].
  - unfold accept_game. simpl.
    rewrite lookup_app_r by reflexivity. now rewrite Nat.sub_diag.
  - unfold accept_game, watchers. simpl. rewrite filter_length_app.
    simpl. lia.
  - apply accept_game_twice.
  - unfold accept_game, live_pollers. simpl. rewrite filter_length_app.
    simpl. lia.
  - reflexivity.
  - reflexivity.
  - apply since_app. reflexivity.
Qed.

(** ** The control thread as an automaton *)

Lemma step_main_next (ph : phase) (cs : list command) (s : shared) :
  step_main {| sh := s; main := residual ph >> program cs |} =
  match next ph cs s with
  | Some (ph', cs', s') =>
      Some {| sh := s'; main := residual ph' >> program cs' |}
  | None => None
  end.
Proof.
  destruct ph; simpl.
  - destruct cs as [| [audio | |] rest]; reflexivity.
  - unfold step_main. simpl.
    destruct (bool_decide (is_Some (active_jobs s !! "check_new_emails")));
      reflexivity.
  - reflexivity.
  - reflexivity.
  - unfold step_main. simpl.
    destruct (bool_decide (is_Some (active_jobs s !! "check_new_emails")));
      reflexivity.
  - unfold step_main. simpl.
    destruct (active_jobs s !! "check_new_emails"); reflexivity.
  - unfold step_main. simpl. destruct (finished t s); reflexivity.
  - unfold step_main. simpl.
    destruct (active_jobs s !! "check_new_emails"); reflexivity.
  - reflexivity.
  - reflexivity.
Qed.

(** ** What a worker step can change *)

Lemma exec_say_mail (E : Env) (audio : value) (messages : list value)
  (s : shared) :
  exists s',
    exec (for_each messages (fun message =>
            call (FormatMessage message) >>
            say audio (format_message E message))) s = (Returned tt, s') /\
    active_jobs s' = active_jobs s /\ threads s' = threads s.
Proof.
  revert s. induction messages as [| m rest IH]; intros s; simpl.
  - exists s. repeat split.
  - rewrite exec_bind, exec_say.
    destruct (IH (emit (if truthy audio
                        then Speak (format_message E m)
                        else Print (format_message E m))
                    (emit (Call (FormatMessage m)) s))) as (s' & Hr & Hj & Ht).
    exists s'. repeat split; assumption.
Qed.

Lemma exec_check_new_emails (E : Env) (audio : value) (s : shared) :
  exists s',
    exec (check_new_emails E audio) s = (Returned VNone, s') /\
    active_jobs s' = active_jobs s /\ threads s' = threads s.
Proof.
  unfold check_new_emails.
  rewrite exec_bind. simpl exec at 1. cbv iota beta.
  rewrite exec_bind. simpl exec at 1. cbv iota beta.
  rewrite exec_bind, exec_say, exec_bind.
  match goal with
  | |- context [exec (for_each ?ms ?body) ?s0] =>
      destruct (exec_say_mail E audio ms s0) as (s' & Hr & Hj & Ht)
  end.
  rewrite Hr. exists s'. simpl in Hj, Ht. repeat split; assumption.
Qed.

Lemma step_poller_inv (E : Env) (audio : value) (pc : poller_pc)
  (s : shared) :
  let '(pc', s') := step_poller E audio pc s in
  active_jobs s' = active_jobs s /\ threads s' = threads s /\
  (pc' <> PDone -> pc <> PDone) /\
  (is_Some (active_jobs s !! "check_new_emails") ->
   pc <> PDone -> pc' <> PDone).
Proof.
  unfold step_poller. destruct pc; cbv iota beta.
  - destruct (bool_decide (is_Some (active_jobs s !! "check_new_emails")))
      eqn:Hb.
    + repeat split; congruence.
    + repeat split; try congruence. intros Hsome _.
      apply bool_decide_eq_false in Hb. contradiction.
  - destruct (exec_check_new_emails E audio s) as (s' & Hr & Hj & Ht).
    rewrite Hr. simpl. repeat split; try assumption; congruence.
  - repeat split; congruence.
  - repeat split; congruence.
Qed.

Lemma step_watcher_inv (E : Env) (pc : watcher_pc) (s : shared) :
  let '(pc', s') := step_watcher E pc s in
  active_jobs s' = active_jobs s /\ threads s' = threads s.
Proof.
  destruct pc; simpl; try (split; reflexivity).
  destruct (find_text_in_screenshot E (shots s) "accept!") as [obj |];
    [destruct (index0 obj) |]; split; reflexivity.
Qed.

Lemma live_poller_not_done (audio : value) (pc : poller_pc) :
  is_live_poller (Poller audio pc) = true <-> pc <> PDone.
Proof. destruct pc; simpl; split; congruence. Qed.

Lemma step_thread_inv (E : Env) (t : nat) (s s' : shared) :
  step_thread E t s = Some s' ->
  active_jobs s' = active_jobs s /\
  exists th th',
    threads s !! t = Some th /\ thread_finished th = false /\
    threads s' = <[t := th']> (threads s) /\
    (is_live_poller th' = true -> is_live_poller th = true) /\
    (forall audio pc,
        th = Poller audio pc ->
        is_Some (active_jobs s !! "check_new_emails") ->
        exists pc', th' = Poller audio pc' /\ pc' <> PDone).
Proof.
  unfold step_thread. intros Hstep.
  destruct (threads s !! t) as [th |] eqn:Hth; [| discriminate].
  destruct (thread_finished th) eqn:Hfin; [discriminate |].
  destruct th as [audio pc | pc].
  - pose proof (step_poller_inv E audio pc s) as Hinv.
    destruct (step_poller E audio pc s) as [pc' s1].
    destruct Hinv as (Hj & Ht & Hlive & Hstay).
    injection Hstep as <-. simpl. split; [exact Hj |].
    exists (Poller audio pc), (Poller audio pc').
    repeat split; try assumption.
    + now rewrite Ht.
    + rewrite !live_poller_not_done. exact Hlive.
    + intros a p Heq Hsome. injection Heq as <- <-.
      exists pc'. split; [reflexivity |]. apply Hstay; [assumption |].
      destruct pc; simpl in Hfin; congruence.
  - pose proof (step_watcher_inv E pc s) as Hinv.
    destruct (step_watcher E pc s) as [pc' s1].
    destruct Hinv as (Hj & Ht).
    injection Hstep as <-. simpl. split; [exact Hj |].
    exists (Watcher pc), (Watcher pc').
    repeat split; try assumption.
    + now rewrite Ht.
    + simpl. discriminate.
    + intros a p Heq. discriminate Heq.
Qed.

(** A step of one worker leaves every other thread where it was. *)
Lemma step_thread_others (E : Env) (t t0 : nat) (s s' : shared) :
  step_thread E t s = Some s' -> t0 <> t ->
  threads s' !! t0 = threads s !! t0.
Proof.
  intros Hstep Hne.
  destruct (step_thread_inv E t s s' Hstep)
    as (_ & th & th' & _ & _ & Hths & _).
  rewrite Hths. apply list_lookup_insert_ne. congruence.
Qed.

Lemma step_thread_finished (E : Env) (t t0 : nat) (s s' : shared) :
  step_thread E t s = Some s' ->
  finished t0 s = true -> finished t0 s' = true.
Proof.
  intros Hstep Hfin.
  destruct (step_thread_inv E t s s' Hstep)
    as (_ & th & th' & Hth & Hnf & Hths & _).
  unfold finished in *. rewrite Hths.
  destruct (decide (t = t0)) as [-> | Hne].
  - rewrite Hth in Hfin. congruence.
  - now rewrite list_lookup_insert_ne by exact Hne.
Qed.

Lemma step_thread_owned (E : Env) (t : nat) (s s' : shared)
  (pending : option nat) :
  step_thread E t s = Some s' -> owned s pending -> owned s' pending.
Proof.
  intros Hstep Hown t0 th0 Hlook Hlive.
  destruct (step_thread_inv E t s s' Hstep)
    as (Hj & th & th' & Hth & _ & Hths & Hmono & _).
  rewrite Hj. rewrite Hths in Hlook.
  apply list_lookup_insert_Some in Hlook.
  destruct Hlook as [(<- & <- & _) | (Hne & Hold)].
  - apply (Hown t th Hth). now apply Hmono.
  - now apply (Hown t0 th0).
Qed.

(** ** At most one mail poller *)

Lemma owned_spawn (s : shared) (th : thread) :
  owned s None ->
  active_jobs s !! "check_new_emails" = None ->
  owned (set_threads (threads s ++ [th]) s) (Some (length (threads s))).
Proof.
  intros Hown Habs t th0 Hlook Hlive. simpl in *.
  apply lookup_app_Some in Hlook.
  destruct Hlook as [Hold | [Hge Hnew]].
  - destruct (Hown t th0 Hold Hlive) as [Hreg | Hpend]; congruence.
  - right. f_equal.
    destruct (t - length (threads s)) as [| n] eqn:Hd; simpl in Hnew.
    + lia.
    + discriminate Hnew.
Qed.

Lemma owned_spawn_watcher (s : shared) :
  owned s None ->
  owned (set_threads (threads s ++ [Watcher WInit]) s) None.
Proof.
  intros Hown t th0 Hlook Hlive. simpl in *.
  apply lookup_app_Some in Hlook.
  destruct Hlook as [Hold | [Hge Hnew]].
  - exact (Hown t th0 Hold Hlive).
  - destruct (t - length (threads s)) as [| n]; simpl in Hnew.
    + injection Hnew as <-. discriminate Hlive.
    + discriminate Hnew.
Qed.

Lemma next_good (ph ph' : phase) (cs cs' : list command) (s s' : shared) :
  next ph cs s = Some (ph', cs', s') -> good ph s -> good ph' s'.
Proof.
  intros Hnext Hgood. destruct ph; simpl in Hnext, Hgood.
  - destruct cs as [| [audio | |] rest]; [discriminate | ..];
      injection Hnext as <- <- <-; exact Hgood.
  - destruct (bool_decide (is_Some (active_jobs s !! "check_new_emails")))
      eqn:Hb; injection Hnext as <- <- <-; simpl; [exact Hgood |].
    split; [exact Hgood |].
    apply bool_decide_eq_false in Hb.
    destruct (active_jobs s !! "check_new_emails") eqn:Hl;
      [exfalso; apply Hb; eauto | reflexivity].
  - injection Hnext as <- <- <-. destruct Hgood as [Hown Habs]. simpl.
    split; [now apply owned_spawn | exact Habs].
  - injection Hnext as <- <- <-. destruct Hgood as [Hown Habs]. simpl.
    intros t0 th0 Hlook Hlive. simpl in *. left.
    rewrite lookup_insert_eq.
    destruct (Hown t0 th0 Hlook Hlive) as [Hreg | Hpend]; congruence.
  - destruct (bool_decide (is_Some (active_jobs s !! "check_new_emails")))
      eqn:Hb; injection Hnext as <- <- <-; simpl; [| exact Hgood].
    split; [exact Hgood |]. now apply bool_decide_eq_true in Hb.
  - destruct Hgood as [Hown Hsome].
    destruct (active_jobs s !! "check_new_emails") as [t |] eqn:Hl;
      injection Hnext as <- <- <-; simpl.
    + split; assumption.
    + exact Hown.
  - destruct Hgood as [Hown Hreg].
    destruct (finished t s) eqn:Hfin; [| discriminate].
    injection Hnext as <- <- <-. simpl. split; [exact Hown |].
    exists t. split; assumption.
  - destruct Hgood as [Hown (t & Hreg & Hfin)].
    rewrite Hreg in Hnext. injection Hnext as <- <- <-. simpl.
    intros t0 th0 Hlook Hlive. simpl in *. exfalso.
    destruct (Hown t0 th0 Hlook Hlive) as [Hreg0 | Hpend]; [| discriminate].
    assert (t0 = t) as -> by congruence.
    unfold finished in Hfin. rewrite Hlook in Hfin.
    destruct th0 as [a [| | |] | pc]; simpl in Hlive, Hfin; congruence.
  - injection Hnext as <- <- <-. simpl. now apply owned_spawn_watcher.
  - discriminate.
Qed.

Lemma step_thread_good (E : Env) (t : nat) (ph : phase) (s s' : shared) :
  step_thread E t s = Some s' -> good ph s -> good ph s'.
Proof.
  intros Hstep Hgood.
  pose proof (step_thread_owned E t s s') as Hown.
  destruct (step_thread_inv E t s s' Hstep) as (Hj & _).
  destruct ph; simpl in *; try (now apply Hown).
  - destruct Hgood as [H1 H2]. split; [now apply Hown | congruence].
  - destruct Hgood as [H1 H2]. split; [now apply Hown | congruence].
  - destruct Hgood as [H1 H2]. split; [now apply Hown | congruence].
  - destruct Hgood as [H1 H2]. split; [now apply Hown | congruence].
  - destruct Hgood as [H1 (t0 & Hreg & Hfin)]. split; [now apply Hown |].
    exists t0. split; [congruence |].
    exact (step_thread_finished E t t0 s s' Hstep Hfin).
Qed.

Lemma supervised_step (E : Env) (p : pick) (c c' : config) :
  step E p c = Some c' -> supervised c -> supervised c'.
Proof.
  intros Hstep (ph & cs & Hmain & Hgood).
  destruct c as [s m]. simpl in Hmain, Hgood. subst m.
  destruct p as [| t]; simpl in Hstep.
  - rewrite step_main_next in Hstep.
    destruct (next ph cs s) as [[[ph' cs'] s'] |] eqn:Hnext; [| discriminate].
    injection Hstep as <-. exists ph', cs'. split; [reflexivity |].
    exact (next_good ph ph' cs cs' s s' Hnext Hgood).
  - destruct (step_thread E t s) as [s' |] eqn:Hth; [| discriminate].
    injection Hstep as <-. exists ph, cs. split; [reflexivity |].
    exact (step_thread_good E t ph s s' Hth Hgood).
Qed.

Lemma supervised_run (E : Env) (sched : list pick) (c : config) :
  supervised c -> supervised (run E sched c).
Proof.
  revert c. induction sched as [| p rest IH]; intros c Hc; simpl.
  - exact Hc.
  - destruct (step E p c) as [c' |] eqn:Hstep.
    + apply IH. exact (supervised_step E p c c' Hstep Hc).
    + now apply IH.
Qed.

Lemma supervised_start (cs : list command) :
  supervised {| sh := initial; main := program cs |}.
Proof.
  exists Between, cs. split; [reflexivity |].
  intros t th Hlook. simpl in Hlook. discriminate Hlook.
Qed.

Lemma filter_unique_le1 {A : Type} (f : A -> bool) (l : list A) :
  (forall i j x y,
      l !! i = Some x -> l !! j = Some y ->
      f x = true -> f y = true -> i = j) ->
  length (List.filter f l) <= 1.
Proof.
  induction l as [| a l IH]; intros Huniq; simpl.
  - lia.
  - assert (Htail : forall i j x y,
               l !! i = Some x -> l !! j = Some y ->
               f x = true -> f y = true -> i = j).
    { intros i j x y Hi Hj Hx Hy.
      assert (S i = S j) by (apply (Huniq (S i) (S j) x y); assumption).
      lia. }
    destruct (f a) eqn:Hfa; [| now apply IH].
    simpl.
    assert (Hnone : List.filter f l = []).
    { destruct (List.filter f l) as [| b rest] eqn:Hfl; [reflexivity |].
      assert (Hb : In b (List.filter f l)) by (rewrite Hfl; now left).
      apply List.filter_In in Hb. destruct Hb as [Hin Hfb].
      apply list_elem_of_In, list_elem_of_lookup in Hin.
      destruct Hin as [j Hj].
      assert (0 = S j) by (apply (Huniq 0 (S j) a b); auto).
      discriminate. }
    rewrite Hnone. simpl. lia.
Qed.

Lemma good_at_most_one (ph : phase) (s : shared) :
  good ph s -> live_pollers s <= 1.
Proof.
  intros Hgood. unfold live_pollers. apply filter_unique_le1.
  intros i j x y Hi Hj Hx Hy.
  assert (Hown : exists pending,
             owned s pending /\
             (pending <> None ->
              active_jobs s !! "check_new_emails" = None)).
  { destruct ph; simpl in Hgood;
      try (exists None; split; [tauto | congruence]).
    exists (Some t). split; tauto. }
  destruct Hown as (pending & Hown & Habs).
  destruct (Hown i x Hi Hx) as [Hri | Hpi], (Hown j y Hj Hy) as [Hrj | Hpj].
  - congruence.
  - rewrite Habs in Hri by congruence. discriminate.
  - rewrite Habs in Hrj by congruence. discriminate.
  - congruence.
Qed.

(** C2, as the spec states it, fails: neither call returns a boolean.
    From the initial store the first call returns [None], not [True], and
    so does the second, not [False]. *)
Lemma start_twice_counterexample :
  let r1 := exec (start_checking_new_emails (VBool false)) initial in
  let r2 := exec (start_checking_new_emails (VBool false)) (snd r1) in
  fst r1 = Returned VNone /\ fst r2 = Returned VNone /\
  fst r1 <> Returned (VBool true) /\ fst r2 <> Returned (VBool false).
Proof.
  cbv zeta. rewrite (exec_start_absent (VBool false) initial eq_refl).
  cbv zeta. cbn [fst snd]. rewrite exec_start_present.
  - repeat split; intros H; discriminate H.
  - simpl. rewrite lookup_insert_eq. eauto.
Qed.

(** C2, amended: [start_checking_new_emails] returns [None] on every
    call.  Called when no job is registered under ["check_new_emails"],
    it starts one poller thread and registers its handle under the key;
    called again directly afterwards, it starts no thread and leaves the
    job map as it is.  And whatever sequence of start, stop and
    accept-game commands the control thread runs from the initial store,
    under every interleaving with the workers, at most one mail poller is
    alive at any time. *)
Theorem start_twice (audio1 audio2 : value) (s : shared) :
  active_jobs s !! "check_new_emails" = None ->
  let r1 := exec (start_checking_new_emails audio1) s in
  let r2 := exec (start_checking_new_emails audio2) (snd r1) in
  fst r1 = Returned VNone /\ fst r2 = Returned VNone /\
  threads (snd r1) = (threads s ++ [Poller audio1 PCheck])%list /\
  active_jobs (snd r1) =
    <["check_new_emails" := length (threads s)]> (active_jobs s) /\
  threads (snd r2) = threads (snd r1) /\
  active_jobs (snd r2) = active_jobs (snd r1) /\
  live_pollers (snd r2) = live_pollers (snd r1) /\
  (forall (E : Env) (cs : list command) (sched : list pick),
      live_pollers
        (sh (run E sched {| sh := initial; main := program cs |})) <= 1).
Proof.
  intros Habs. cbv zeta. rewrite (exec_start_absent audio1 s Habs).
  cbv zeta. cbn [fst snd].
  rewrite exec_start_present by (simpl; rewrite lookup_insert_eq; eauto).
  cbn [fst snd]. repeat split.
  intros E cs sched.
  destruct (supervised_run E sched _ (supervised_start cs))
    as (ph & cs' & _ & Hgood).
  exact (good_at_most_one ph _ Hgood).
Qed.

Lemma start_twice_witness :
  let r1 := exec (start_checking_new_emails (VBool false)) initial in
  let r2 := exec (start_checking_new_emails (VBool true)) (snd r1) in
  fst r1 = Returned VNone /\ fst r2 = Returned VNone /\
  threads (snd r1) = [Poller (VBool false) PCheck] /\
  threads (snd r2) = [Poller (VBool false) PCheck] /\
  active_jobs (snd r2) = active_jobs (snd r1).
Proof.
  destruct (start_twice (VBool false) (VBool true) initial eq_refl)
    as (H1 & H2 & H3 & _ & H5 & H6 & _).
  cbv zeta. rewrite H5, H3. repeat split; assumption.
Defined.

(** ** Stopping a running poller (C1) *)

Lemma stop_pending_main_step (t : nat) (c c' : config) :
  step_main c = Some c' -> stop_pending t c -> stop_pending t c'.
Proof.
  intros Hstep (Hreg & (audio & pc & Hth & Hpc) & cs & Hshape).
  destruct c as [s m]. cbn [sh main] in Hreg, Hth, Hshape.
  assert (Hpresent :
            bool_decide (is_Some (active_jobs s !! "check_new_emails")) = true)
    by (apply bool_decide_eq_true; eauto).
  destruct Hshape as [-> | [-> | [-> | ->]]].
  - change (program (StopChecking :: cs))
      with (residual Between >> program (StopChecking :: cs)) in Hstep.
    rewrite step_main_next in Hstep. simpl in Hstep.
    injection Hstep as <-. simpl.
    split; [exact Hreg |]. split; [eauto |]. exists cs. tauto.
  - rewrite step_main_next in Hstep. simpl in Hstep.
    rewrite Hpresent in Hstep. injection Hstep as <-. simpl.
    split; [exact Hreg |]. split; [eauto |]. exists cs. tauto.
  - rewrite step_main_next in Hstep. simpl in Hstep.
    rewrite Hreg in Hstep. injection Hstep as <-. simpl.
    split; [exact Hreg |]. split; [eauto |]. exists cs. tauto.
  - rewrite step_main_next in Hstep. simpl in Hstep.
    unfold finished in Hstep. rewrite Hth in Hstep.
    destruct pc; simpl in Hstep; congruence.
Qed.

Lemma stop_pending_step (E : Env) (t : nat) (p : pick) (c c' : config) :
  step E p c = Some c' -> stop_pending t c -> stop_pending t c'.
Proof.
  intros Hstep Hpend. destruct p as [| t0]; simpl in Hstep.
  - exact (stop_pending_main_step t c c' Hstep Hpend).
  - destruct (step_thread E t0 (sh c)) as [s' |] eqn:Hw; [| discriminate].
    injection Hstep as <-.
    destruct Hpend as (Hreg & (audio & pc & Hth & Hpc) & Hshape).
    destruct (step_thread_inv E t0 (sh c) s' Hw)
      as (Hj & th & th' & Hth0 & _ & Hths & _ & Hstay).
    unfold stop_pending. cbn [sh main].
    split; [congruence |]. split; [| exact Hshape].
    rewrite Hths. destruct (decide (t0 = t)) as [-> | Hne].
    + rewrite Hth in Hth0. injection Hth0 as <-.
      destruct (Hstay audio pc eq_refl) as (pc' & -> & Hpc'); [eauto |].
      exists audio, pc'. split; [| exact Hpc'].
      apply list_lookup_insert_eq. apply lookup_lt_Some in Hth. exact Hth.
    + exists audio, pc. split; [| exact Hpc].
      now rewrite list_lookup_insert_ne by exact Hne.
Qed.

Lemma stop_pending_run (E : Env) (t : nat) (sched : list pick) (c : config) :
  stop_pending t c -> stop_pending t (run E sched c).
Proof.
  revert c. induction sched as [| p rest IH]; intros c Hc; simpl.
  - exact Hc.
  - destruct (step E p c) as [c' |] eqn:Hstep.
    + apply IH. exact (stop_pending_step E t p c c' Hstep Hc).
    + now apply IH.
Qed.

Lemma stop_pending_not_done (t : nat) (c : config) :
  stop_pending t c ->
  main_done c = false /\
  active_jobs (sh c) !! "check_new_emails" = Some t /\
  finished t (sh c) = false.
Proof.
  intros (Hreg & (audio & pc & Hth & Hpc) & cs & Hshape).
  split; [| split; [exact Hreg |]].
  - unfold main_done. destruct Hshape as [-> | [-> | [-> | ->]]]; reflexivity.
  - unfold finished. rewrite Hth. destruct pc; simpl; congruence.
Qed.

(** C1 at the failing input: mail polling is started and, once the start
    has returned (the poller is registered and running), stop is
    requested.  Under every schedule from there on the control thread
    never leaves [stop_checking_new_emails]: it waits in [join] for a
    poller that only stops once the key is gone, while the key is only
    deleted after [join].  The poller never observes the stop. *)
Theorem stop_after_start_never_returns (E : Env) (audio : value)
  (sched : list pick) :
  let c0 := {| sh := initial;
               main := program [StartChecking audio; StopChecking] |} in
  let started := run E [Main; Main; Main; Main] c0 in
  let c := run E sched started in
  main started = program [StopChecking] /\
  threads (sh started) = [Poller audio PCheck] /\
  active_jobs (sh started) !! "check_new_emails" = Some 0 /\
  main_done c = false /\
  active_jobs (sh c) !! "check_new_emails" = Some 0 /\
  finished 0 (sh c) = false.
Proof.
  cbv zeta.
  split; [reflexivity |]. split; [reflexivity |]. split; [reflexivity |].
  apply stop_pending_not_done, stop_pending_run.
  split; [reflexivity |]. split.
  - exists audio, PCheck. split; [reflexivity | discriminate].
  - exists []. left. reflexivity.
Qed.

(** The one way out: if the poller is scheduled between its start and its
    registration, it finds no key, finishes at once, and a later stop
    returns; polling then never took place. *)
Example stop_returns_when_poller_left_early :
  let c0 := {| sh := initial;
               main := program [StartChecking (VBool false); StopChecking] |} in
  let c := run demo [Main; Main; Main; Worker 0; Main;
                     Main; Main; Main; Main; Main] c0 in
  main_done c = true /\
  threads (sh c) = [Poller (VBool false) PDone] /\
  active_jobs (sh c) !! "check_new_emails" = None /\
  trace (sh c) = [Print "Checking new emails every 15 minutes...";
                  Print "Stopping checking new emails..."].
Proof. cbv zeta. repeat split; vm_compute; reflexivity. Qed.

(** * Further properties of the code *)

(** ** Runs of events *)

Lemma emit_all_app (evs1 evs2 : list event) (s : shared) :
  emit_all (evs1 ++ evs2) s = emit_all evs2 (emit_all evs1 s).
Proof. unfold emit_all. apply fold_left_app. Qed.

Lemma emit_all_fields (evs : list event) (s : shared) :
  active_jobs (emit_all evs s) = active_jobs s /\
  threads (emit_all evs s) = threads s /\
  trace (emit_all evs s) = (trace s ++ evs)%list /\
  polls (emit_all evs s) = polls s /\
  shots (emit_all evs s) = shots s.
Proof.
  revert s. induction evs as [| e evs IH]; intros s; simpl.
  - rewrite app_nil_r. repeat split.
  - destruct (IH (emit e s)) as (Hj & Ht & Htr & Hp & Hs).
    unfold emit_all in *. simpl in *.
    rewrite Hj, Ht, Htr, Hp, Hs, <- app_assoc. repeat split.
Qed.

Lemma since_emit_all (evs : list event) (s : shared) :
  since s (emit_all evs s) = evs.
Proof. apply since_app. apply emit_all_fields. Qed.

Lemma since_trans (s s1 s2 : shared) (evs1 evs2 : list event) :
  trace s1 = (trace s ++ evs1)%list ->
  trace s2 = (trace s1 ++ evs2)%list ->
  trace s2 = (trace s ++ (evs1 ++ evs2))%list.
Proof. intros -> ->. now rewrite app_assoc. Qed.

Lemma exec_say_event (audio : value) (text : string) (s : shared) :
  exec (say audio text) s = (Returned tt, emit (say_event audio text) s).
Proof. apply exec_say. Qed.

(** ** check_new_emails *)

Lemma exec_for_each_mail (E : Env) (audio : value) (messages : list value)
  (s : shared) :
  exec (for_each messages (fun message =>
          call (FormatMessage message) >>
          say audio (format_message E message))) s =
  (Returned tt,
   emit_all (flat_map (fun message =>
                         [Call (FormatMessage message);
                          say_event audio (format_message E message)])
               messages) s).
Proof.
  revert s. induction messages as [| m rest IH]; intros s; simpl.
  - reflexivity.
  - rewrite exec_bind, exec_say_event. apply IH.
Qed.

Lemma exec_check_new_emails_full (E : Env) (audio : value) (s : shared) :
  exists s',
    exec (check_new_emails E audio) s = (Returned VNone, s') /\
    trace s' =
      (trace s ++ mail_events E audio (get_new_messages E (polls s)))%list /\
    polls s' = S (polls s) /\ shots s' = shots s /\
    active_jobs s' = active_jobs s /\ threads s' = threads s.
Proof.
  unfold check_new_emails.
  rewrite exec_bind. simpl exec at 1. cbv iota beta.
  rewrite exec_bind. simpl exec at 1. cbv iota beta.
  rewrite exec_bind, exec_say_event, exec_bind, exec_for_each_mail.
  eexists. split; [reflexivity |].
  match goal with
  | |- context [emit_all ?evs ?s0] =>
      destruct (emit_all_fields evs s0) as (Hj & Ht & Htr & Hp & Hs)
  end.
  rewrite Hj, Ht, Htr, Hp, Hs. simpl. unfold mail_events.
  rewrite <- !app_assoc. repeat split.
Qed.

(** One run of [check_new_emails] asks the mailbox once, announces the
    number of messages, then formats and announces each message in the
    order of the mailbox; all announcements go to the channel chosen by
    [audio], the progress line is always printed.  It returns [None] and
    leaves the job map and the threads alone. *)
Theorem check_new_emails_trace (E : Env) (audio : value) (s : shared) :
  let messages := get_new_messages E (polls s) in
  let s' := snd (exec (check_new_emails E audio) s) in
  fst (exec (check_new_emails E audio) s) = Returned VNone /\
  since s s' = mail_events E audio messages /\
  output (since s s') =
    Print "Checking new emails..."
    :: say_event audio ("You have " +:+ str_of_nat (length messages)
                        +:+ " new messages.")
    :: List.map (fun m => say_event audio (format_message E m)) messages /\
  polls s' = S (polls s) /\
  active_jobs s' = active_jobs s /\ threads s' = threads s.
Proof.
  cbv zeta.
  destruct (exec_check_new_emails_full E audio s)
    as (s' & -> & Htr & Hp & _ & Hj & Ht).
  cbn [fst snd]. rewrite (since_app s s' _ Htr).
  repeat split; try assumption.
  unfold mail_events, output. simpl.
  assert (Hsay : forall text, is_output (say_event audio text) = true)
    by (intros text; unfold say_event; destruct (truthy audio); reflexivity).
  rewrite Hsay. f_equal. f_equal. clear Htr.
  induction (get_new_messages E (polls s)) as [| m rest IH]; simpl.
  - reflexivity.
  - rewrite Hsay. f_equal. exact IH.
Qed.

(** ** Schedules *)

Lemma run_app (E : Env) (sched1 sched2 : list pick) (c : config) :
  run E (sched1 ++ sched2) c = run E sched2 (run E sched1 c).
Proof.
  revert c. induction sched1 as [| p rest IH]; intros c; simpl.
  - reflexivity.
  - destruct (step E p c); apply IH.
Qed.

Lemma run_worker_moves (E : Env) (t : nat) (rest : list pick)
  (s s' : shared) (m : proc value) :
  step_thread E t s = Some s' ->
  run E (Worker t :: rest) {| sh := s; main := m |}
  = run E rest {| sh := s'; main := m |}.
Proof. intros H. simpl. now rewrite H. Qed.

Lemma run_worker_skips (E : Env) (t : nat) (rest : list pick) (c : config) :
  step_thread E t (sh c) = None ->
  run E (Worker t :: rest) c = run E rest c.
Proof. intros H. simpl. now rewrite H. Qed.

Lemma step_thread_done (E : Env) (t : nat) (s : shared) :
  finished t s = true -> step_thread E t s = None.
Proof.
  unfold finished, step_thread. intros H.
  destruct (threads s !! t) as [th |]; [| reflexivity].
  now rewrite H.
Qed.

Lemma repeat_triple {A : Type} (x : A) (k : nat) :
  repeat x (3 * S k) = x :: x :: x :: repeat x (3 * k).
Proof. replace (3 * S k) with (S (S (S (3 * k)))) by lia. reflexivity. Qed.

Lemma repeat_double {A : Type} (x : A) (k : nat) :
  repeat x (2 * S k) = x :: x :: repeat x (2 * k).
Proof. replace (2 * S k) with (S (S (2 * k))) by lia. reflexivity. Qed.

(** ** The mail poller *)

Lemma sleeps_app (evs1 evs2 : list event) :
  sleeps (evs1 ++ evs2) = (sleeps evs1 ++ sleeps evs2)%list.
Proof. unfold sleeps. apply flat_map_app. Qed.

Lemma clicks_app (evs1 evs2 : list event) :
  clicks (evs1 ++ evs2) = clicks evs1 + clicks evs2.
Proof. unfold clicks. apply filter_length_app. Qed.

Lemma sleeps_mail_events (E : Env) (audio : value) (messages : list value) :
  sleeps (mail_events E audio messages) = [].
Proof.
  unfold mail_events. rewrite sleeps_app.
  assert (Hsay : forall text, sleeps [say_event audio text] = [])
    by (intros text; unfold say_event; destruct (truthy audio); reflexivity).
  assert (Hhead : forall text,
             sleeps [Print "Checking new emails..."; Call GetNewMessages;
                     say_event audio text] = [])
    by (intros text; unfold say_event; destruct (truthy audio); reflexivity).
  rewrite Hhead. simpl.
  induction messages as [| m rest IH]; simpl.
  - reflexivity.
  - unfold say_event at 1. destruct (truthy audio); exact IH.
Qed.

(** One move of a poller, by where it stands. *)
Lemma step_thread_poller (E : Env) (t : nat) (audio : value)
  (pc : poller_pc) (s : shared) :
  threads s !! t = Some (Poller audio pc) -> pc <> PDone ->
  exists s',
    step_thread E t s = Some s' /\
    active_jobs s' = active_jobs s /\ shots s' = shots s /\
    match pc with
    | PCheck =>
        threads s' =
          <[t := Poller audio
                   (if bool_decide
                         (is_Some (active_jobs s !! "check_new_emails"))
                    then PWork else PDone)]> (threads s) /\
        trace s' = trace s /\ polls s' = polls s
    | PWork =>
        threads s' = <[t := Poller audio PSleep]> (threads s) /\
        trace s' =
          (trace s
           ++ mail_events E audio (get_new_messages E (polls s)))%list /\
        polls s' = S (polls s)
    | PSleep =>
        threads s' = <[t := Poller audio PCheck]> (threads s) /\
        trace s' = (trace s ++ [Sleep 900])%list /\ polls s' = polls s
    | PDone => False
    end.
Proof.
  intros Hth Hpc. unfold step_thread. rewrite Hth.
  destruct pc; [| | | congruence]; cbn [thread_finished step_poller].
  - destruct (bool_decide (is_Some (active_jobs s !! "check_new_emails")));
      eexists; (split; [reflexivity |]); repeat split.
  - destruct (exec_check_new_emails_full E audio s)
      as (s1 & Hex & Htr & Hp & Hs & Hj & Ht).
    rewrite Hex. cbn [snd]. eexists. split; [reflexivity |].
    simpl. rewrite Ht. repeat split; assumption.
  - eexists. split; [reflexivity |]. repeat split.
Qed.

Lemma poller_cycle (E : Env) (t : nat) (audio : value) (s : shared)
  (m : proc value) (rest : list pick) :
  threads s !! t = Some (Poller audio PCheck) ->
  is_Some (active_jobs s !! "check_new_emails") ->
  exists s',
    run E (Worker t :: Worker t :: Worker t :: rest) {| sh := s; main := m |}
    = run E rest {| sh := s'; main := m |} /\
    threads s' = threads s /\ active_jobs s' = active_jobs s /\
    shots s' = shots s /\ polls s' = S (polls s) /\
    trace s' =
      (trace s ++ (mail_events E audio (get_new_messages E (polls s))
                   ++ [Sleep 900]))%list.
Proof.
  intros Hth Hkey.
  assert (Hlt : t < length (threads s)) by (eapply lookup_lt_Some; eauto).
  destruct (step_thread_poller E t audio PCheck s Hth ltac:(discriminate))
    as (s1 & Hst1 & Hj1 & Hs1 & Ht1 & Htr1 & Hp1).
  rewrite bool_decide_true in Ht1 by exact Hkey.
  assert (Hth1 : threads s1 !! t = Some (Poller audio PWork))
    by (rewrite Ht1; now apply list_lookup_insert_eq).
  destruct (step_thread_poller E t audio PWork s1 Hth1 ltac:(discriminate))
    as (s2 & Hst2 & Hj2 & Hs2 & Ht2 & Htr2 & Hp2).
  assert (Hth2 : threads s2 !! t = Some (Poller audio PSleep)).
  { rewrite Ht2. apply list_lookup_insert_eq. rewrite Ht1, length_insert.
    exact Hlt. }
  destruct (step_thread_poller E t audio PSleep s2 Hth2 ltac:(discriminate))
    as (s3 & Hst3 & Hj3 & Hs3 & Ht3 & Htr3 & Hp3).
  exists s3. split.
  - rewrite (run_worker_moves E t _ s s1 m Hst1).
    rewrite (run_worker_moves E t _ s1 s2 m Hst2).
    now rewrite (run_worker_moves E t _ s2 s3 m Hst3).
  - repeat split; try congruence.
    + rewrite Ht3, Ht2, Ht1, !list_insert_insert_eq.
      now apply list_insert_id.
    + rewrite Htr3, Htr2, Htr1, Hp1, <- app_assoc. reflexivity.
Qed.

(** While the key stays registered a poller works in cycles of check,
    mail check and sleep: after [k] cycles it stands at its check again,
    has asked the mailbox [k] times and slept [k] times, 900 seconds
    each, and it has changed neither the job map nor any other thread. *)
Theorem poller_cycles (E : Env) (t : nat) (audio : value) (k : nat)
  (s : shared) (m : proc value) :
  threads s !! t = Some (Poller audio PCheck) ->
  is_Some (active_jobs s !! "check_new_emails") ->
  let c := run E (repeat (Worker t) (3 * k)) {| sh := s; main := m |} in
  main c = m /\
  threads (sh c) = threads s /\
  active_jobs (sh c) = active_jobs s /\
  polls (sh c) = polls s + k /\
  sleeps (since s (sh c)) = repeat 900%Z k.
Proof.
  intros Hth Hkey. cbv zeta.
  enough (H : exists evs,
             main (run E (repeat (Worker t) (3 * k)) {| sh := s; main := m |})
               = m /\
             threads (sh (run E (repeat (Worker t) (3 * k))
                            {| sh := s; main := m |})) = threads s /\
             active_jobs (sh (run E (repeat (Worker t) (3 * k))
                                {| sh := s; main := m |})) = active_jobs s /\
             polls (sh (run E (repeat (Worker t) (3 * k))
                          {| sh := s; main := m |})) = polls s + k /\
             trace (sh (run E (repeat (Worker t) (3 * k))
                          {| sh := s; main := m |}))
               = (trace s ++ evs)%list /\
             sleeps evs = repeat 900%Z k).
  { destruct H as (evs & Hm & Ht & Hj & Hp & Htr & Hsl).
    rewrite (since_app _ _ _ Htr). repeat split; assumption. }
  revert s Hth Hkey. induction k as [| k IH]; intros s Hth Hkey.
  - exists []. simpl. rewrite app_nil_r. repeat split. lia.
  - rewrite repeat_triple.
    destruct (poller_cycle E t audio s m (repeat (Worker t) (3 * k)) Hth Hkey)
      as (s' & -> & Ht & Hj & Hs & Hp & Htr).
    destruct (IH s') as (evs & Hm' & Ht' & Hj' & Hp' & Htr' & Hsl');
      [congruence | congruence |].
    exists ((mail_events E audio (get_new_messages E (polls s)) ++ [Sleep 900])
            ++ evs)%list.
    repeat split; try congruence.
    + lia.
    + rewrite Htr', Htr. symmetry. apply app_assoc.
    + rewrite !sleeps_app, sleeps_mail_events, Hsl'. reflexivity.
Qed.

Lemma poller_cycles_witness :
  let s := snd (exec (start_checking_new_emails (VBool false)) initial) in
  let c := run demo (repeat (Worker 0) (3 * 2))
             {| sh := s; main := Ret VNone |} in
  polls (sh c) = 2 /\ sleeps (since s (sh c)) = [900%Z; 900%Z].
Proof.
  destruct (poller_cycles demo 0 (VBool false) 2
              (snd (exec (start_checking_new_emails (VBool false)) initial))
              (Ret VNone) eq_refl (ex_intro _ 0 eq_refl))
    as (_ & _ & _ & Hp & Hs).
  cbv zeta. split; [exact Hp | exact Hs].
Defined.

Lemma run_finished_worker (E : Env) (t n : nat) (c : config) :
  finished t (sh c) = true -> run E (repeat (Worker t) n) c = c.
Proof.
  intros Hfin. induction n as [| n IH]; simpl.
  - reflexivity.
  - rewrite (step_thread_done E t (sh c) Hfin). exact IH.
Qed.

Lemma poller_done_finished (t : nat) (audio : value) (s : shared) :
  threads s !! t = Some (Poller audio PDone) -> finished t s = true.
Proof. unfold finished. now intros ->. Qed.

Lemma poller_check_unregistered (E : Env) (t : nat) (audio : value)
  (s : shared) :
  threads s !! t = Some (Poller audio PCheck) ->
  active_jobs s !! "check_new_emails" = None ->
  exists s',
    step_thread E t s = Some s' /\
    threads s' !! t = Some (Poller audio PDone) /\
    trace s' = trace s /\ polls s' = polls s /\
    active_jobs s' = active_jobs s.
Proof.
  intros Hth Habs.
  destruct (step_thread_poller E t audio PCheck s Hth ltac:(discriminate))
    as (s1 & Hst & Hj & _ & Ht & Htr & Hp).
  rewrite bool_decide_false in Ht
    by (rewrite Habs; intros [x Hx]; discriminate Hx).
  exists s1. repeat split; try assumption.
  rewrite Ht. apply list_lookup_insert_eq. eapply lookup_lt_Some; eauto.
Qed.

(** Once the key is gone from the job map, a poller is finished after at
    most three of its own moves, wherever it stood: it completes at most
    the mail check and the one sleep it was in, and ends at its next
    check. *)
Theorem poller_leaves_when_unregistered (E : Env) (t : nat) (audio : value)
  (pc : poller_pc) (s : shared) (m : proc value) :
  threads s !! t = Some (Poller audio pc) ->
  active_jobs s !! "check_new_emails" = None ->
  let c := run E (repeat (Worker t) 3) {| sh := s; main := m |} in
  threads (sh c) !! t = Some (Poller audio PDone) /\
  finished t (sh c) = true /\
  polls (sh c) <= S (polls s) /\
  length (sleeps (since s (sh c))) <= 1 /\
  active_jobs (sh c) = active_jobs s.
Proof.
  intros Hth Habs. cbv zeta.
  assert (Hlt : t < length (threads s)) by (eapply lookup_lt_Some; eauto).
  enough (H : exists evs,
             threads (sh (run E (repeat (Worker t) 3) {| sh := s; main := m |}))
               !! t = Some (Poller audio PDone) /\
             polls (sh (run E (repeat (Worker t) 3) {| sh := s; main := m |}))
               <= S (polls s) /\
             trace (sh (run E (repeat (Worker t) 3) {| sh := s; main := m |}))
               = (trace s ++ evs)%list /\
             length (sleeps evs) <= 1 /\
             active_jobs (sh (run E (repeat (Worker t) 3)
                                {| sh := s; main := m |})) = active_jobs s).
  { destruct H as (evs & Ht & Hp & Htr & Hsl & Hj).
    rewrite (since_app _ _ _ Htr). repeat split; try assumption.
    exact (poller_done_finished t audio _ Ht). }
  destruct pc.
  - (* at the check *)
    destruct (poller_check_unregistered E t audio s Hth Habs)
      as (s1 & Hst & Ht1 & Htr1 & Hp1 & Hj1).
    change (repeat (Worker t) 3) with (Worker t :: repeat (Worker t) 2).
    rewrite (run_worker_moves E t _ s s1 m Hst).
    rewrite run_finished_worker
      by exact (poller_done_finished t audio s1 Ht1).
    exists []. cbn [sh]. rewrite app_nil_r. repeat split; try assumption.
    + lia.
    + simpl. lia.
  - (* at the mail check *)
    destruct (step_thread_poller E t audio PWork s Hth ltac:(discriminate))
      as (s1 & Hst1 & Hj1 & _ & Ht1 & Htr1 & Hp1).
    assert (Hth1 : threads s1 !! t = Some (Poller audio PSleep))
      by (rewrite Ht1; now apply list_lookup_insert_eq).
    destruct (step_thread_poller E t audio PSleep s1 Hth1 ltac:(discriminate))
      as (s2 & Hst2 & Hj2 & _ & Ht2 & Htr2 & Hp2).
    assert (Hth2 : threads s2 !! t = Some (Poller audio PCheck)).
    { rewrite Ht2. apply list_lookup_insert_eq.
      rewrite Ht1, length_insert. exact Hlt. }
    destruct (poller_check_unregistered E t audio s2 Hth2)
      as (s3 & Hst3 & Ht3 & Htr3 & Hp3 & Hj3); [congruence |].
    change (repeat (Worker t) 3) with [Worker t; Worker t; Worker t].
    rewrite (run_worker_moves E t _ s s1 m Hst1).
    rewrite (run_worker_moves E t _ s1 s2 m Hst2).
    rewrite (run_worker_moves E t _ s2 s3 m Hst3).
    exists (mail_events E audio (get_new_messages E (polls s)) ++ [Sleep 900])%list.
    cbn [run sh]. repeat split; try congruence.
    + lia.
    + rewrite Htr3, Htr2, Htr1. symmetry. apply app_assoc.
    + rewrite sleeps_app, sleeps_mail_events. simpl. lia.
  - (* asleep *)
    destruct (step_thread_poller E t audio PSleep s Hth ltac:(discriminate))
      as (s1 & Hst1 & Hj1 & _ & Ht1 & Htr1 & Hp1).
    assert (Hth1 : threads s1 !! t = Some (Poller audio PCheck))
      by (rewrite Ht1; now apply list_lookup_insert_eq).
    destruct (poller_check_unregistered E t audio s1 Hth1)
      as (s2 & Hst2 & Ht2 & Htr2 & Hp2 & Hj2); [congruence |].
    change (repeat (Worker t) 3)
      with (Worker t :: Worker t :: repeat (Worker t) 1).
    rewrite (run_worker_moves E t _ s s1 m Hst1).
    rewrite (run_worker_moves E t _ s1 s2 m Hst2).
    rewrite run_finished_worker
      by exact (poller_done_finished t audio s2 Ht2).
    exists [Sleep 900]. cbn [sh]. repeat split; try congruence.
    + lia.
    + simpl. lia.
  - (* finished already *)
    rewrite run_finished_worker
      by exact (poller_done_finished t audio s Hth).
    exists []. cbn [sh]. rewrite app_nil_r. repeat split; try assumption.
    + lia.
    + simpl. lia.
Qed.

Lemma poller_leaves_when_unregistered_witness :
  let s := set_threads [Poller (VBool false) PWork] initial in
  let c := run demo (repeat (Worker 0) 3) {| sh := s; main := Ret VNone |} in
  threads (sh c) !! 0 = Some (Poller (VBool false) PDone) /\
  finished 0 (sh c) = true.
Proof.
  destruct (poller_leaves_when_unregistered demo 0 (VBool false) PWork
              (set_threads [Poller (VBool false) PWork] initial)
              (Ret VNone) eq_refl eq_refl) as (H1 & H2 & _).
  cbv zeta. split; [exact H1 | exact H2].
Defined.

(** Workers only read the job map: whatever workers run, in whatever
    order, as long as the control thread does not move, the job map stays
    the same, no thread is added or removed, and the control thread's
    code is untouched. *)
Theorem workers_leave_registry (E : Env) (sched : list pick) (c : config) :
  Forall (fun p => p <> Main) sched ->
  let c' := run E sched c in
  active_jobs (sh c') = active_jobs (sh c) /\
  length (threads (sh c')) = length (threads (sh c)) /\
  main c' = main c.
Proof.
  intros Hall. cbv zeta. revert c.
  induction Hall as [| p rest Hp Hrest IH]; intros c; simpl.
  - repeat split.
  - destruct p as [| t]; [congruence |]. simpl.
    destruct (step_thread E t (sh c)) as [s' |] eqn:Hst; [| apply IH].
    destruct (step_thread_inv E t (sh c) s' Hst)
      as (Hj & th & th' & _ & _ & Hths & _).
    destruct (IH {| sh := s'; main := main c |}) as (Hj' & Hl' & Hm').
    simpl in Hj', Hl', Hm'. repeat split.
    + congruence.
    + rewrite Hl', Hths. apply length_insert.
    + exact Hm'.
Qed.

Lemma workers_leave_registry_witness :
  let c := {| sh := snd (exec (start_checking_new_emails (VBool false))
                           initial);
              main := stop_checking_new_emails |} in
  let c' := run demo [Worker 0; Worker 0; Worker 1; Worker 0] c in
  active_jobs (sh c') = active_jobs (sh c) /\
  length (threads (sh c')) = length (threads (sh c)) /\
  main c' = main c.
Proof.
  apply (workers_leave_registry demo [Worker 0; Worker 0; Worker 1; Worker 0]).
  repeat constructor; discriminate.
Defined.

(** ** The accept-game watcher *)

Lemma step_thread_watcher (E : Env) (t : nat) (pc : watcher_pc) (s : shared) :
  threads s !! t = Some (Watcher pc) ->
  thread_finished (Watcher pc) = false ->
  step_thread E t s =
  Some (set_threads
          (<[t := Watcher (fst (step_watcher E pc s))]>
             (threads (snd (step_watcher E pc s))))
          (snd (step_watcher E pc s))).
Proof.
  intros Hth Hfin. unfold step_thread. rewrite Hth, Hfin.
  destruct (step_watcher E pc s) as [pc' s']. reflexivity.
Qed.

Lemma watcher_round (E : Env) (t : nat) (s : shared) (m : proc value)
  (rest : list pick) :
  threads s !! t = Some (Watcher WLook) ->
  find_text_in_screenshot E (shots s) "accept!" = None ->
  exists s',
    run E (Worker t :: Worker t :: rest) {| sh := s; main := m |}
    = run E rest {| sh := s'; main := m |} /\
    threads s' = threads s /\ shots s' = S (shots s) /\
    active_jobs s' = active_jobs s /\ polls s' = polls s /\
    trace s' =
      (trace s ++ [Call (TakeScreenshot true);
                   Call (FindTextInScreenshot "accept!"); Sleep 5])%list.
Proof.
  intros Hth Hnone.
  assert (Hlt : t < length (threads s)) by (eapply lookup_lt_Some; eauto).
  pose proof (step_thread_watcher E t WLook s Hth eq_refl) as Hst1.
  cbn [step_watcher] in Hst1. rewrite Hnone in Hst1. cbn [fst snd] in Hst1.
  rewrite (run_worker_moves E t _ s _ m Hst1).
  match type of Hst1 with _ = Some ?s1 =>
    assert (Hth1 : threads s1 !! t = Some (Watcher WSleep))
      by (simpl; now apply list_lookup_insert_eq);
    pose proof (step_thread_watcher E t WSleep s1 Hth1 eq_refl) as Hst2
  end.
  cbn [step_watcher fst snd] in Hst2.
  rewrite (run_worker_moves E t _ _ _ m Hst2).
  eexists. split; [reflexivity |]. simpl.
  rewrite list_insert_insert_eq, <- !app_assoc. simpl.
  repeat split. now apply list_insert_id.
Qed.

Lemma watcher_rounds (E : Env) (t n : nat) (s : shared) (m : proc value)
  (rest : list pick) :
  threads s !! t = Some (Watcher WLook) ->
  (forall i, i < n ->
             find_text_in_screenshot E (shots s + i) "accept!" = None) ->
  exists s',
    run E (repeat (Worker t) (2 * n) ++ rest) {| sh := s; main := m |}
    = run E rest {| sh := s'; main := m |} /\
    threads s' = threads s /\ shots s' = shots s + n /\
    active_jobs s' = active_jobs s /\ polls s' = polls s /\
    trace s' =
      (trace s
       ++ concat (repeat [Call (TakeScreenshot true);
                          Call (FindTextInScreenshot "accept!"); Sleep 5]
                    n))%list.
Proof.
  revert s. induction n as [| n IH]; intros s Hth Hnone.
  - exists s. simpl. rewrite app_nil_r, Nat.add_0_r. repeat split.
  - rewrite repeat_double. cbn [app].
    destruct (watcher_round E t s m (repeat (Worker t) (2 * n) ++ rest) Hth)
      as (s1 & -> & Ht1 & Hs1 & Hj1 & Hp1 & Htr1).
    { rewrite <- (Nat.add_0_r (shots s)). apply Hnone. lia. }
    destruct (IH s1) as (s2 & -> & Ht2 & Hs2 & Hj2 & Hp2 & Htr2).
    { congruence. }
    { intros i Hi. rewrite Hs1.
      replace (S (shots s) + i) with (shots s + S i) by lia.
      apply Hnone. lia. }
    exists s2. split; [reflexivity |]. repeat split; try congruence.
    + lia.
    + rewrite Htr2, Htr1. cbn [repeat concat]. rewrite <- !app_assoc.
      reflexivity.
Qed.

Lemma clicks_in_vain (n : nat) :
  clicks (concat (repeat [Call (TakeScreenshot true);
                          Call (FindTextInScreenshot "accept!"); Sleep 5] n))
  = 0.
Proof.
  induction n as [| n IH]; [reflexivity |].
  cbn [repeat concat]. rewrite clicks_app, IH. reflexivity.
Qed.

Lemma repeat_ends {A : Type} (x : A) (n : nat) :
  repeat x (n + 2) = x :: (repeat x n ++ [x])%list.
Proof.
  replace (n + 2) with (1 + (n + 1)) by lia.
  rewrite !repeat_app. reflexivity.
Qed.

(** A watcher that sees nothing on its first [n] screenshots and the
    button on the next one creates its mouse controller once, sleeps 5
    seconds after each look in vain, then moves to the box found, clicks
    exactly once and finishes: [2 * n + 2] moves in all.  It never touches
    the job map. *)
Theorem watcher_finds_button (E : Env) (t n : nat) (accept_object bbox : value)
  (s : shared) (m : proc value) :
  threads s !! t = Some (Watcher WInit) ->
  (forall i, i < n ->
             find_text_in_screenshot E (shots s + i) "accept!" = None) ->
  find_text_in_screenshot E (shots s + n) "accept!" = Some accept_object ->
  index0 accept_object = inr bbox ->
  let c := run E (repeat (Worker t) (2 * n + 2)) {| sh := s; main := m |} in
  threads (sh c) !! t = Some (Watcher WDone) /\
  finished t (sh c) = true /\
  since s (sh c) = watcher_events n bbox /\
  clicks (since s (sh c)) = 1 /\
  sleeps (since s (sh c)) = repeat 5%Z n /\
  shots (sh c) = shots s + S n /\
  active_jobs (sh c) = active_jobs s.
Proof.
  intros Hth Hnone Hfound Hbox. cbv zeta.
  assert (Hlt : t < length (threads s)) by (eapply lookup_lt_Some; eauto).
  rewrite repeat_ends.
  (* the controller *)
  pose proof (step_thread_watcher E t WInit s Hth eq_refl) as Hst0.
  cbn [step_watcher fst snd] in Hst0.
  rewrite (run_worker_moves E t _ s _ m Hst0).
  match type of Hst0 with _ = Some ?s0 =>
    assert (Hth0 : threads s0 !! t = Some (Watcher WLook))
      by (simpl; now apply list_lookup_insert_eq);
    destruct (watcher_rounds E t n s0 m [Worker t] Hth0 Hnone)
      as (s1 & -> & Ht1 & Hs1 & Hj1 & Hp1 & Htr1)
  end.
  simpl in Ht1, Hs1, Hj1, Hp1, Htr1.
  (* the look that finds the button *)
  assert (Hth1 : threads s1 !! t = Some (Watcher WLook))
    by (rewrite Ht1; now apply list_lookup_insert_eq).
  pose proof (step_thread_watcher E t WLook s1 Hth1 eq_refl) as Hst2.
  cbn [step_watcher] in Hst2. rewrite Hs1, Hfound, Hbox in Hst2.
  cbn [fst snd] in Hst2.
  rewrite (run_worker_moves E t _ s1 _ m Hst2). cbn [run sh].
  assert (Htr : trace
                  (set_threads
                     (<[t:=Watcher WDone]>
                        (threads
                           (emit (Call ClickLeftButton)
                              (emit (Call (GoToCenterOfBbox bbox))
                                 (emit (Call (FindTextInScreenshot "accept!"))
                                    (bump_shots
                                       (emit (Call (TakeScreenshot true))
                                          s1)))))))
                     (emit (Call ClickLeftButton)
                        (emit (Call (GoToCenterOfBbox bbox))
                           (emit (Call (FindTextInScreenshot "accept!"))
                              (bump_shots
                                 (emit (Call (TakeScreenshot true)) s1))))))
                = (trace s ++ watcher_events n bbox)%list).
  { simpl. rewrite Htr1. unfold watcher_events.
    rewrite <- !app_assoc. reflexivity. }
  rewrite (since_app _ _ _ Htr).
  assert (Hdone : threads
                    (set_threads
                       (<[t:=Watcher WDone]> (threads s1))
                       s1) !! t = Some (Watcher WDone)).
  { simpl. apply list_lookup_insert_eq. rewrite Ht1, length_insert.
    exact Hlt. }
  split; [exact Hdone |]. split.
  { unfold finished. simpl in Hdone |- *. now rewrite Hdone. }
  split; [reflexivity |]. split.
  { unfold watcher_events.
    change (Call NewMouseController :: ?l)
      with ([Call NewMouseController] ++ l)%list.
    rewrite !clicks_app, clicks_in_vain. reflexivity. }
  split.
  { unfold watcher_events.
    change (Call NewMouseController :: ?l)
      with ([Call NewMouseController] ++ l)%list.
    rewrite !sleeps_app. simpl. rewrite app_nil_r.
    clear. induction n as [| n IH]; [reflexivity |].
    cbn [repeat concat]. rewrite sleeps_app, IH. reflexivity. }
  split; simpl; [lia | congruence].
Qed.

Lemma watcher_finds_button_witness :
  let s := snd (exec accept_game initial) in
  let c := run demo_button (repeat (Worker 0) (2 * 2 + 2))
             {| sh := s; main := Ret VNone |} in
  threads (sh c) !! 0 = Some (Watcher WDone) /\
  since s (sh c) =
    watcher_events 2 (VList [VInt 10; VInt 20; VInt 30; VInt 40]) /\
  clicks (since s (sh c)) = 1.
Proof.
  assert (Hnone : forall i, i < 2 ->
            find_text_in_screenshot demo_button
              (shots (snd (exec accept_game initial)) + i) "accept!" = None).
  { intros i Hi. destruct i as [| [| i]]; [reflexivity | reflexivity | lia]. }
  destruct (watcher_finds_button demo_button 0 2
              (VList [VList [VInt 10; VInt 20; VInt 30; VInt 40]])
              (VList [VInt 10; VInt 20; VInt 30; VInt 40])
              (snd (exec accept_game initial)) (Ret VNone)
              eq_refl Hnone eq_refl eq_refl) as (H1 & _ & H3 & H4 & _).
  cbv zeta. repeat split; assumption.
Defined.

(** ** The job map under start, stop and accept-game commands *)

Lemma step_thread_kind (E : Env) (t t0 : nat) (audio : value)
  (pc : poller_pc) (s s' : shared) :
  step_thread E t s = Some s' ->
  threads s !! t0 = Some (Poller audio pc) ->
  exists pc', threads s' !! t0 = Some (Poller audio pc').
Proof.
  intros Hstep Hth.
  destruct (decide (t = t0)) as [-> | Hne].
  - assert (Hlt : t0 < length (threads s)) by (eapply lookup_lt_Some; eauto).
    assert (Hdec : pc = PDone \/ pc <> PDone)
      by (destruct pc; (now left) || (right; discriminate)).
    destruct Hdec as [-> | Hpc].
    + rewrite (step_thread_done E t0 s) in Hstep; [discriminate |].
      exact (poller_done_finished t0 audio s Hth).
    + destruct (step_thread_poller E t0 audio pc s Hth Hpc)
        as (s1 & Hst & _ & _ & Hcase).
      rewrite Hst in Hstep. injection Hstep as <-.
      destruct pc; [| | | contradiction];
        destruct Hcase as (-> & _); eexists;
        now apply list_lookup_insert_eq.
  - exists pc. now rewrite (step_thread_others E t t0 s s' Hstep).
Qed.

Lemma registry_ok_step_thread (E : Env) (t : nat) (s s' : shared) :
  step_thread E t s = Some s' -> registry_ok s -> registry_ok s'.
Proof.
  intros Hstep Hok k t0 Hreg.
  destruct (step_thread_inv E t s s' Hstep) as (Hj & _).
  rewrite Hj in Hreg. destruct (Hok k t0 Hreg) as (-> & audio & pc & Hth).
  split; [reflexivity |].
  destruct (step_thread_kind E t t0 audio pc s s' Hstep Hth) as (pc' & Hth').
  eauto.
Qed.

Lemma registry_ok_spawn (s : shared) (th : thread) :
  registry_ok s -> registry_ok (set_threads (threads s ++ [th]) s).
Proof.
  intros Hok k t Hreg. simpl in Hreg.
  destruct (Hok k t Hreg) as (-> & audio & pc & Hth).
  split; [reflexivity |]. exists audio, pc. simpl.
  now apply lookup_app_l_Some.
Qed.

Lemma next_well_kept (ph ph' : phase) (cs cs' : list command)
  (s s' : shared) :
  next ph cs s = Some (ph', cs', s') -> well_kept ph s -> well_kept ph' s'.
Proof.
  intros Hnext (Hgood & Hok & Hph).
  split; [exact (next_good ph ph' cs cs' s s' Hnext Hgood) |].
  destruct ph as [| a | a | t | | | t | | | e]; simpl in Hnext, Hgood, Hph.
  - destruct cs as [| [audio | |] rest]; [discriminate | ..];
      injection Hnext as <- <- <-; (split; [exact Hok | exact I]).
  - destruct (bool_decide (is_Some (active_jobs s !! "check_new_emails")));
      injection Hnext as <- <- <-; (split; [exact Hok | exact I]).
  - injection Hnext as <- <- <-. split; [now apply registry_ok_spawn |].
    exists a, PCheck. simpl.
    rewrite lookup_app_r by reflexivity. now rewrite Nat.sub_diag.
  - injection Hnext as <- <- <-. split; [| exact I].
    intros k t0 Hreg. simpl in Hreg.
    apply lookup_insert_Some in Hreg.
    destruct Hreg as [(<- & <-) | (_ & Hold)].
    + split; [reflexivity | exact Hph].
    + exact (Hok k t0 Hold).
  - destruct (bool_decide (is_Some (active_jobs s !! "check_new_emails")));
      injection Hnext as <- <- <-; (split; [exact Hok | exact I]).
  - destruct Hgood as [_ [t0 Hsome]]. rewrite Hsome in Hnext.
    injection Hnext as <- <- <-. split; [exact Hok | exact I].
  - destruct (finished t s); [| discriminate].
    injection Hnext as <- <- <-. split; [exact Hok | exact I].
  - destruct Hgood as [_ (t1 & Hreg & _)]. rewrite Hreg in Hnext.
    injection Hnext as <- <- <-. split; [| exact I].
    intros k t0 Hreg0. simpl in Hreg0.
    apply lookup_delete_Some in Hreg0. destruct Hreg0 as [_ Hold].
    exact (Hok k t0 Hold).
  - injection Hnext as <- <- <-.
    split; [now apply registry_ok_spawn | exact I].
  - contradiction.
Qed.

Lemma step_thread_well_kept (E : Env) (t : nat) (ph : phase)
  (s s' : shared) :
  step_thread E t s = Some s' -> well_kept ph s -> well_kept ph s'.
Proof.
  intros Hstep (Hgood & Hok & Hph).
  split; [exact (step_thread_good E t ph s s' Hstep Hgood) |].
  split; [exact (registry_ok_step_thread E t s s' Hstep Hok) |].
  destruct ph as [| a | a | t0 | | | t0 | | | e]; try exact Hph.
  destruct Hph as (a & pc & Hth).
  destruct (step_thread_kind E t t0 a pc s s' Hstep Hth) as (pc' & Hth').
  eauto.
Qed.

Lemma well_kept_run (E : Env) (sched : list pick) (ph : phase)
  (cs : list command) (s : shared) :
  well_kept ph s ->
  exists ph' cs',
    main (run E sched {| sh := s; main := residual ph >> program cs |})
      = (residual ph' >> program cs') /\
    well_kept ph' (sh (run E sched
                         {| sh := s; main := residual ph >> program cs |})).
Proof.
  revert ph cs s. induction sched as [| p rest IH]; intros ph cs s Hkept.
  - exists ph, cs. split; [reflexivity | exact Hkept].
  - destruct p as [| t]; cbn [run step].
    + rewrite step_main_next.
      destruct (next ph cs s) as [[[ph' cs'] s'] |] eqn:Hnext.
      * apply IH. exact (next_well_kept ph ph' cs cs' s s' Hnext Hkept).
      * now apply IH.
    + cbn [sh main].
      destruct (step_thread E t s) as [s' |] eqn:Hst.
      * apply IH. exact (step_thread_well_kept E t ph s s' Hst Hkept).
      * now apply IH.
Qed.

Lemma well_kept_initial : well_kept Between initial.
Proof.
  split; [| split; [| exact I]].
  - intros t th Hlook. discriminate Hlook.
  - intros k t Hreg. simpl in Hreg. rewrite lookup_empty in Hreg.
    discriminate Hreg.
Qed.

(** Whatever start, stop and accept-game commands the control thread
    runs, under every interleaving with the workers, the job map never
    holds any key but ["check_new_emails"], and the handle stored there
    is always a thread that exists and is a mail poller. *)
Theorem registry_always_ok (E : Env) (cs : list command)
  (sched : list pick) :
  registry_ok (sh (run E sched {| sh := initial; main := program cs |})).
Proof.
  destruct (well_kept_run E sched Between cs initial well_kept_initial)
    as (ph & cs' & _ & (_ & Hok & _)).
  exact Hok.
Qed.

(** The check-then-act sequences of the job commands are safe with one
    control thread: under every interleaving with the workers, no start,
    stop or accept-game command ever raises; in particular the lookup and
    the [del] in [stop_checking_new_emails] never meet a missing key. *)
Theorem job_commands_never_raise (E : Env) (cs : list command)
  (sched : list pick) (e : exn) :
  main (run E sched {| sh := initial; main := program cs |}) <> Raise e.
Proof.
  destruct (well_kept_run E sched Between cs initial well_kept_initial)
    as (ph & cs' & Hmain & (_ & _ & Hph)).
  change (residual Between >> program cs) with (program cs) in Hmain.
  rewrite Hmain.
  destruct ph as [| a | a | t | | | t | | | e0];
    try discriminate; [| contradiction].
  destruct cs' as [| [a | |] rest]; discriminate.
Qed.

(** ** Stopping, starting again and again, and the window in start *)

(** With a job registered, [stop_checking_new_emails] waits for the
    registered thread: if that thread has finished, the key is deleted
    and [None] is returned; if it is still running, the control thread
    is blocked in [join] and the key stays where it is. *)
Theorem stop_registered_job (s : shared) (t : nat) :
  active_jobs s !! "check_new_emails" = Some t ->
  let r := exec stop_checking_new_emails s in
  since s (snd r) = [Print "Stopping checking new emails..."] /\
  threads (snd r) = threads s /\
  (finished t s = true ->
   fst r = Returned VNone /\
   active_jobs (snd r) = delete "check_new_emails" (active_jobs s) /\
   active_jobs (snd r) !! "check_new_emails" = None) /\
  (finished t s = false ->
   fst r = Blocked t /\ active_jobs (snd r) = active_jobs s).
Proof.
  intros Hreg. cbv zeta.
  assert (Heq : exec stop_checking_new_emails s =
                if finished t s
                then (Returned VNone,
                      set_jobs (delete "check_new_emails" (active_jobs s))
                        (emit (Print "Stopping checking new emails...") s))
                else (Blocked t,
                      emit (Print "Stopping checking new emails...") s)).
  { unfold stop_checking_new_emails. simpl.
    rewrite bool_decide_true by eauto. simpl. rewrite Hreg. simpl.
    change (finished t (emit (Print "Stopping checking new emails...") s))
      with (finished t s).
    destruct (finished t s); [| reflexivity]. simpl. now rewrite Hreg. }
  rewrite Heq. destruct (finished t s); simpl.
  - split; [apply since_app; reflexivity |]. split; [reflexivity |].
    split; [| intros H; discriminate H]. intros _.
    split; [reflexivity |]. split; [reflexivity |]. apply lookup_delete_eq.
  - split; [apply since_app; reflexivity |]. split; [reflexivity |].
    split; [intros H; discriminate H |]. intros _. split; reflexivity.
Qed.

Lemma stop_registered_job_witness :
  let s := set_jobs {[ "check_new_emails" := 0 ]}
             (set_threads [Poller (VBool false) PDone] initial) in
  let r := exec stop_checking_new_emails s in
  fst r = Returned VNone /\
  active_jobs (snd r) !! "check_new_emails" = None.
Proof.
  destruct (stop_registered_job
              (set_jobs {[ "check_new_emails" := 0 ]}
                 (set_threads [Poller (VBool false) PDone] initial)) 0)
    as (_ & _ & Hfin & _).
  - vm_compute. reflexivity.
  - destruct (Hfin eq_refl) as (H1 & _ & H3).
    cbv zeta. split; [exact H1 | exact H3].
Defined.

Lemma exec_program_cons (c : command) (rest : list command) (s : shared) :
  exec (program (c :: rest)) s =
  match exec (perform c) s with
  | (Returned _, s1) => exec (program rest) s1
  | (Raised e, s1) => (Raised e, s1)
  | (Exited code, s1) => (Exited code, s1)
  | (Blocked t, s1) => (Blocked t, s1)
  end.
Proof. cbn [program]. apply exec_bind. Qed.

Lemma start_while_registered (audios : list value) (s : shared) :
  is_Some (active_jobs s !! "check_new_emails") ->
  exists s',
    exec (program (List.map StartChecking audios)) s = (Returned VNone, s') /\
    threads s' = threads s /\ active_jobs s' = active_jobs s.
Proof.
  revert s. induction audios as [| a rest IH]; intros s Hreg.
  - exists s. repeat split.
  - cbn [List.map]. rewrite exec_program_cons. cbn [perform].
    rewrite (exec_start_present a s Hreg).
    destruct (IH (emit (Print "Checking new emails every 15 minutes...") s))
      as (s' & Hex & Ht & Hj); [exact Hreg |].
    exists s'. repeat split; assumption.
Qed.

(** However often [start_checking_new_emails] is called in a row, only
    the first call starts a poller: one thread is added, it carries the
    [audio] flag of the first call, and the flags of the later calls are
    ignored. *)
Theorem start_repeated (audio : value) (audios : list value) (s : shared) :
  active_jobs s !! "check_new_emails" = None ->
  let r := exec (program (StartChecking audio
                          :: List.map StartChecking audios)) s in
  fst r = Returned VNone /\
  threads (snd r) = (threads s ++ [Poller audio PCheck])%list /\
  active_jobs (snd r) =
    <["check_new_emails" := length (threads s)]> (active_jobs s) /\
  live_pollers (snd r) = S (live_pollers s).
Proof.
  intros Habs. cbv zeta. rewrite exec_program_cons. cbn [perform].
  rewrite (exec_start_absent audio s Habs). cbv zeta.
  match goal with
  | |- context [exec (program _) ?s1] =>
      destruct (start_while_registered audios s1) as (s' & -> & Ht & Hj)
  end.
  { simpl. rewrite lookup_insert_eq. eauto. }
  cbn [fst snd]. simpl in Ht, Hj. repeat split; try assumption.
  unfold live_pollers. rewrite Ht, filter_length_app. simpl. lia.
Qed.

Lemma start_repeated_witness :
  let r := exec (program [StartChecking (VBool true);
                          StartChecking (VBool false);
                          StartChecking VNone]) initial in
  fst r = Returned VNone /\
  threads (snd r) = [Poller (VBool true) PCheck].
Proof.
  destruct (start_repeated (VBool true) [VBool false; VNone] initial eq_refl)
    as (H1 & H2 & _).
  cbv zeta. split; [exact H1 | exact H2].
Defined.

Lemma exec_accept_game (s : shared) :
  exec accept_game s =
  (Returned VNone,
   set_threads (threads s ++ [Watcher WInit])
     (emit (Print "Accepting game...") s)).
Proof. reflexivity. Qed.

Lemma accept_game_in_a_row (n : nat) (s : shared) :
  exists s',
    exec (program (repeat AcceptGame n)) s = (Returned VNone, s') /\
    threads s' = (threads s ++ repeat (Watcher WInit) n)%list /\
    active_jobs s' = active_jobs s.
Proof.
  revert s. induction n as [| n IH]; intros s.
  - exists s. simpl. rewrite app_nil_r. repeat split.
  - cbn [repeat]. rewrite exec_program_cons. cbn [perform].
    rewrite exec_accept_game.
    destruct (IH (set_threads (threads s ++ [Watcher WInit])
                    (emit (Print "Accepting game...") s)))
      as (s' & Hex & Ht & Hj).
    exists s'. split; [exact Hex |]. split; [| exact Hj].
    rewrite Ht. simpl. now rewrite <- app_assoc.
Qed.

(** Every call of [accept_game] in a row adds its own watcher: [n] calls
    leave [n] more watcher threads, no poller more, and the job map as it
    was. *)
Theorem accept_game_repeated (n : nat) (s : shared) :
  let r := exec (program (repeat AcceptGame n)) s in
  fst r = Returned VNone /\
  threads (snd r) = (threads s ++ repeat (Watcher WInit) n)%list /\
  watchers (snd r) = watchers s + n /\
  live_pollers (snd r) = live_pollers s /\
  active_jobs (snd r) = active_jobs s.
Proof.
  cbv zeta. destruct (accept_game_in_a_row n s) as (s' & -> & Ht & Hj).
  cbn [fst snd]. repeat split; try assumption.
  - unfold watchers. rewrite Ht, filter_length_app. f_equal.
    clear. induction n as [| n IH]; simpl; [reflexivity | now rewrite IH].
  - unfold live_pollers. rewrite Ht, filter_length_app.
    assert (H0 : length (List.filter is_live_poller
                           (repeat (Watcher WInit) n)) = 0)
      by (clear; induction n as [| n IH]; simpl; [reflexivity | exact IH]).
    rewrite H0. lia.
Qed.

Lemma run_main_moves (E : Env) (ph ph' : phase) (cs cs' : list command)
  (s s' : shared) (rest : list pick) :
  next ph cs s = Some (ph', cs', s') ->
  run E (Main :: rest) {| sh := s; main := residual ph >> program cs |}
  = run E rest {| sh := s'; main := residual ph' >> program cs' |}.
Proof. intros H. cbn [run step]. now rewrite step_main_next, H. Qed.

(** The window in [start_checking_new_emails]: the thread is started
    before it is registered.  If the new poller makes its first check
    inside that window it finds no key and finishes at once; the start
    then returns with the key registered to a finished thread, no poller
    running and no mail ever checked. *)
Theorem start_window (E : Env) (audio : value) (cs : list command)
  (s : shared) :
  active_jobs s !! "check_new_emails" = None ->
  let t := length (threads s) in
  let c := run E [Main; Main; Main; Worker t; Main]
             {| sh := s; main := program (StartChecking audio :: cs) |} in
  main c = program cs /\
  active_jobs (sh c) !! "check_new_emails" = Some t /\
  threads (sh c) = (threads s ++ [Poller audio PDone])%list /\
  finished t (sh c) = true /\
  live_pollers (sh c) = live_pollers s /\
  since s (sh c) = [Print "Checking new emails every 15 minutes..."].
Proof.
  intros Habs. cbv zeta.
  change (program (StartChecking audio :: cs))
    with (residual Between >> program (StartChecking audio :: cs)).
  erewrite (run_main_moves E Between); [| reflexivity].
  erewrite (run_main_moves E (StartPrinted audio)); cycle 1.
  { cbn [next]. rewrite bool_decide_false; [reflexivity |].
    simpl. rewrite Habs. intros [x Hx]. discriminate Hx. }
  erewrite (run_main_moves E (StartTested audio)); [| reflexivity].
  match goal with
  | |- context [run E (Worker ?t :: ?rest) {| sh := ?s1; main := ?m |}] =>
      destruct (poller_check_unregistered E t audio s1)
        as (s2 & Hst & Ht2 & Htr2 & Hp2 & Hj2);
      [ simpl; rewrite lookup_app_r by reflexivity;
        now rewrite Nat.sub_diag
      | exact Habs
      | rewrite (run_worker_moves E t rest s1 s2 m Hst) ]
  end.
  erewrite (run_main_moves E (StartSpawned _)); [| reflexivity].
  cbn [run sh main].
  destruct (step_thread_inv E _ _ _ Hst)
    as (_ & th & th' & Hth & _ & Hths & _).
  simpl in Hth, Hths, Htr2, Hj2.
  assert (Hthreads : threads s2 = (threads s ++ [Poller audio PDone])%list).
  { apply list_eq. intros i. rewrite Hths.
    destruct (decide (i = length (threads s))) as [-> | Hne].
    - rewrite Hths in Ht2. rewrite Ht2.
      rewrite lookup_app_r by reflexivity. now rewrite Nat.sub_diag.
    - rewrite list_lookup_insert_ne by congruence.
      destruct (decide (i < length (threads s))) as [Hlt | Hge].
      + now rewrite !lookup_app_l by exact Hlt.
      + rewrite !lookup_app_r by lia.
        destruct (i - length (threads s)) as [| [| j]] eqn:Hd;
          [lia | reflexivity | reflexivity]. }
  split; [reflexivity |]. split; [simpl; apply lookup_insert_eq |].
  split; [exact Hthreads |]. split.
  { unfold finished. simpl. now rewrite Ht2. }
  split.
  { unfold live_pollers. simpl. rewrite Hthreads, filter_length_app.
    simpl. lia. }
  apply since_app. simpl. rewrite Htr2. reflexivity.
Qed.

Lemma start_window_witness :
  let c := run demo [Main; Main; Main; Worker 0; Main]
             {| sh := initial;
                main := program [StartChecking (VBool false)] |} in
  active_jobs (sh c) !! "check_new_emails" = Some 0 /\
  threads (sh c) = [Poller (VBool false) PDone] /\
  live_pollers (sh c) = 0.
Proof.
  destruct (start_window demo (VBool false) [] initial eq_refl)
    as (_ & H2 & H3 & _ & H5 & _).
  cbv zeta. repeat split; assumption.
Defined.

(** ** What the dispatch hands to the actions *)

Lemma jobs_read_three_keys (E : Env) (n : string) (job : handler)
  (kw1 kw2 : gmap string value) :
  kw1 !! "audio" = kw2 !! "audio" ->
  kw1 !! "question" = kw2 !! "question" ->
  kw1 !! "city" = kw2 !! "city" ->
  assoc n (available_jobs E) = Some job ->
  job kw1 = job kw2.
Proof.
  intros Ha Hq Hc Hassoc. unfold available_jobs in Hassoc.
  cbn [assoc] in Hassoc.
  repeat match type of Hassoc with
         | (if ?b then _ else _) = _ =>
             destruct b;
             [ injection Hassoc as <-; unfold kwarg;
               rewrite ?Ha, ?Hq, ?Hc; reflexivity |]
         end.
  discriminate Hassoc.
Qed.

(** Of the keyword dictionary the resolver returns, the actions read
    nothing but ["question"] and ["city"] (["audio"] is overwritten, see
    C9): two answers that name the same action and agree on these two
    keys make [job_on_command] run the very same code, whatever other
    keys they carry. *)
Theorem dispatch_ignores_other_arguments (E : Env)
  (f1 f2 : string -> list string -> option bot_response)
  (self : Employer) (user_input : string) :
  same_call (f1 user_input (available_functions E))
            (f2 user_input (available_functions E)) ->
  job_on_command (with_resolver E f1) self user_input
    = job_on_command (with_resolver E f2) self user_input.
Proof.
  intros Hsame. unfold job_on_command.
  rewrite !available_jobs_with_resolver.
  change (available_functions (with_resolver E f1))
    with (available_functions E).
  change (available_functions (with_resolver E f2))
    with (available_functions E).
  simpl get_function_to_call.
  destruct (f1 user_input (available_functions E)) as [r1 |],
           (f2 user_input (available_functions E)) as [r2 |];
    simpl in Hsame; try contradiction; [| reflexivity].
  destruct Hsame as (Hname & Hq & Hc). rewrite Hname.
  destruct (assoc (name r2) (available_jobs E)) as [job |] eqn:Hjob;
    [| reflexivity].
  assert (Heq : job (<["audio" := VBool (audio self)]> (args r1))
                = job (<["audio" := VBool (audio self)]> (args r2))).
  { apply (jobs_read_three_keys E (name r2) job); [| | | exact Hjob].
    - now rewrite !lookup_insert_eq.
    - rewrite !lookup_insert_ne by discriminate. exact Hq.
    - rewrite !lookup_insert_ne by discriminate. exact Hc. }
  now rewrite Heq.
Qed.

Lemma dispatch_ignores_other_arguments_witness :
  job_on_command (with_resolver demo demo_resolver) {| audio := true |}
    "what's the weather in Paris"
  = job_on_command (with_resolver demo demo_resolver_chatty)
      {| audio := true |} "what's the weather in Paris".
Proof.
  apply (dispatch_ignores_other_arguments demo demo_resolver
           demo_resolver_chatty {| audio := true |}
           "what's the weather in Paris").
  simpl. repeat split; vm_compute; reflexivity.
Defined.

Lemma assoc_is_Some {A : Type} (key : string) (d : list (string * A)) :
  is_Some (assoc key d) <-> In key (List.map fst d).
Proof.
  induction d as [| [k v] rest IH]; simpl.
  - split; [intros [x Hx]; discriminate Hx | contradiction].
  - destruct (String.eqb_spec k key) as [-> | Hne].
    + split; [now left | eauto].
    + rewrite IH. split; [now right | intros [Heq | Hin]; congruence].
Qed.

(** An action runs exactly when the name the resolver returns is one of
    the eleven names of the table: then the function registered under
    that name is called with the keyword dictionary; for any other name
    [job_on_command] does nothing beyond the resolver call. *)
Theorem dispatch_runs_registered_names (E : Env) (self : Employer)
  (user_input : string) (r : bot_response) :
  get_function_to_call E user_input (available_functions E) = Some r ->
  (In (name r)
      ["help"; "ask_question"; "check_new_emails";
       "start_checking_new_emails"; "stop_checking_new_emails"; "weather";
       "accept_game"; "idle_mouse"; "queue_up"; "close_computer"; "exit"] ->
   exists job,
     assoc (name r) (available_jobs E) = Some job /\
     job_on_command E self user_input =
       (call (GetFunctionToCall user_input (available_functions E)) >>
        job (<["audio" := VBool (audio self)]> (args r)) >> Ret VNone)) /\
  (~ In (name r)
       ["help"; "ask_question"; "check_new_emails";
        "start_checking_new_emails"; "stop_checking_new_emails"; "weather";
        "accept_game"; "idle_mouse"; "queue_up"; "close_computer"; "exit"] ->
   job_on_command E self user_input =
     (call (GetFunctionToCall user_input (available_functions E)) >>
      Ret VNone)).
Proof.
  intros Hr. split.
  - intros Hin.
    destruct (proj2 (assoc_is_Some (name r) (available_jobs E)) Hin)
      as [job Hjob].
    exists job. split; [exact Hjob |].
    exact (job_on_command_known E self user_input r job Hr Hjob).
  - intros Hnot.
    apply (job_on_command_unknown E self user_input r Hr).
    destruct (assoc (name r) (available_jobs E)) as [job |] eqn:Hjob;
      [| reflexivity].
    exfalso. apply Hnot.
    apply (proj1 (assoc_is_Some (name r) (available_jobs E))). eauto.
Qed.

Lemma dispatch_runs_registered_names_witness :
  job_on_command demo {| audio := false |} "dance" =
  (call (GetFunctionToCall "dance" (available_functions demo)) >> Ret VNone).
Proof.
  apply (dispatch_runs_registered_names demo {| audio := false |} "dance"
           {| name := "dance"; args := ∅ |} eq_refl).
  simpl. intros H. decompose [or] H; discriminate || contradiction.
Defined.

(** ** Actions that leave background work alone *)

Lemma quiet_then_none (p : proc value) :
  quiet p -> quiet (p >> Ret VNone).
Proof.
  intros Hq s. rewrite exec_bind. specialize (Hq s).
  destruct (exec p s) as [[v | e | c | t] s1]; exact Hq.
Qed.

Lemma quiet_help (E : Env) (audio : value) : quiet (help E audio).
Proof. intros s. rewrite exec_help. split; reflexivity. Qed.

Lemma quiet_ask_question (E : Env) (question audio : value) :
  quiet (ask_question E question audio).
Proof.
  intros s. unfold ask_question. simpl.
  destruct (ai_ask_question E question) as [answer |]; simpl.
  - rewrite exec_bind, exec_say. split; reflexivity.
  - split; reflexivity.
Qed.

Lemma quiet_check_new_emails (E : Env) (audio : value) :
  quiet (check_new_emails E audio).
Proof.
  intros s. destruct (exec_check_new_emails E audio s) as (s' & -> & Hj & Ht).
  split; assumption.
Qed.

Lemma quiet_weather (E : Env) (city audio : value) :
  quiet (weather E city audio).
Proof.
  intros s. destruct (is_none city || eq_empty_str city) eqn:Hcity.
  - rewrite (exec_weather_here E city audio s Hcity). cbv zeta.
    destruct (unpack2 (geo_latlng (geocoder_ip E "me"))) as [e | [lat lon]];
      [split; reflexivity |].
    destruct (is_none lat || is_none lon); [split; reflexivity |].
    destruct (get_weather_for_coordinates E lat lon); split; reflexivity.
  - rewrite (exec_weather_named E city audio s Hcity). cbv zeta.
    destruct (get_coordinates_for_city_name E city) as [lat lon].
    destruct (is_none lat || is_none lon); [split; reflexivity |].
    destruct (get_weather_for_coordinates E lat lon); split; reflexivity.
Qed.

Lemma quiet_close_computer (audio : value) : quiet (close_computer audio).
Proof.
  intros s. unfold close_computer. simpl.
  rewrite exec_bind, exec_say. split; reflexivity.
Qed.

Lemma quiet_exit (audio : value) : quiet (exit audio).
Proof.
  intros s. unfold exit. simpl. rewrite exec_bind, exec_say.
  split; reflexivity.
Qed.

(** Only three actions touch background work.  Whatever else the
    resolver names ([help], [ask_question], [check_new_emails],
    [weather], [idle_mouse], [queue_up], [close_computer], [exit], or a
    name that is not registered), and whether the action returns, raises
    or exits, [job_on_command] leaves the job map and the threads exactly
    as they were. *)
Theorem other_actions_leave_jobs (E : Env) (self : Employer)
  (user_input : string) (r : bot_response) (s : shared) :
  get_function_to_call E user_input (available_functions E) = Some r ->
  ~ In (name r) job_control ->
  let s' := snd (exec (job_on_command E self user_input) s) in
  active_jobs s' = active_jobs s /\ threads s' = threads s.
Proof.
  intros Hr Hnot. cbv zeta.
  destruct (assoc (name r) (available_jobs E)) as [job |] eqn:Hjob.
  - rewrite (job_on_command_known E self user_input r job Hr Hjob).
    rewrite exec_bind. simpl exec at 1. cbv iota beta.
    assert (Hq : quiet (job (<["audio" := VBool (audio self)]> (args r)))).
    { unfold available_jobs in Hjob. cbn [assoc] in Hjob.
      unfold job_control in Hnot.
      repeat match type of Hjob with
             | (if (?k =? ?n)%string then _ else _) = _ =>
                 destruct (String.eqb_spec k n) as [Heq | _];
                 [ injection Hjob as <-;
                   first [ apply quiet_help | apply quiet_ask_question
                         | apply quiet_check_new_emails | apply quiet_weather
                         | apply quiet_close_computer | apply quiet_exit
                         | (intros s0; split; reflexivity)
                         | (exfalso; apply Hnot; rewrite <- Heq; simpl; tauto)
                         | idtac ] |]
             end; try discriminate Hjob.
      destruct (args r !! "question") eqn:Hquestion;
        rewrite lookup_insert_ne by discriminate; rewrite Hquestion.
      - apply quiet_ask_question.
      - intros s0. split; reflexivity. }
    destruct (quiet_then_none _ Hq
                (emit (Call (GetFunctionToCall user_input
                               (available_functions E))) s)) as [Hj Ht].
    split; [exact Hj | exact Ht].
  - rewrite (unknown_action_runs_nothing E self user_input r s Hr Hjob).
    split; reflexivity.
Qed.

Lemma other_actions_leave_jobs_witness :
  let s := snd (exec (start_checking_new_emails (VBool false)) initial) in
  let s' := snd (exec (job_on_command demo {| audio := false |}
                         "what commands can you run") s) in
  active_jobs s' = active_jobs s /\ threads s' = threads s.
Proof.
  apply (other_actions_leave_jobs demo {| audio := false |}
           "what commands can you run"
           {| name := "help"; args := ∅ |}
           (snd (exec (start_checking_new_emails (VBool false)) initial))
           eq_refl).
  simpl. intros H. decompose [or] H; discriminate || contradiction.
Defined.

(** ** exit and ask_question through the dispatch *)

(** When the resolver names [exit], the process ends inside
    [job_on_command] with exit code 0: the progress line is printed,
    ["o7"] goes to the channel chosen by [self.audio], and the call never
    returns to its caller. *)
Theorem dispatch_exit (E : Env) (self : Employer) (user_input : string)
  (r : bot_response) (s : shared) :
  get_function_to_call E user_input (available_functions E) = Some r ->
  name r = "exit" ->
  let res := exec (job_on_command E self user_input) s in
  fst res = Exited 0 /\
  since s (snd res) =
    [Call (GetFunctionToCall user_input (available_functions E));
     Print "Exiting program...";
     say_event (VBool (audio self)) "o7"].
Proof.
  intros Hr Hname. cbv zeta.
  rewrite (job_on_command_known E self user_input r
             (fun kw => exit (kwarg kw "audio" (VBool false))) Hr)
    by (rewrite Hname; reflexivity).
  unfold kwarg. rewrite lookup_insert_eq. simpl.
  rewrite !exec_bind, exec_say_event. simpl.
  split; [reflexivity | apply since_emit3].
Qed.

Lemma dispatch_exit_witness :
  let res := exec (job_on_command
                     (with_resolver demo
                        (fun _ _ => Some {| name := "exit"; args := ∅ |}))
                     {| audio := true |} "bye") initial in
  fst res = Exited 0 /\
  output (since initial (snd res)) = [Print "Exiting program..."; Speak "o7"].
Proof.
  destruct (dispatch_exit
              (with_resolver demo
                 (fun _ _ => Some {| name := "exit"; args := ∅ |}))
              {| audio := true |} "bye" {| name := "exit"; args := ∅ |}
              initial eq_refl eq_refl) as (H1 & H2).
  cbv zeta. split; [exact H1 |]. rewrite H2. reflexivity.
Defined.

(** When the resolver names [ask_question] but supplies no ["question"],
    the call fails with [TypeError] before the function body runs:
    nothing is printed and the question service is not asked. *)
Theorem dispatch_ask_without_question (E : Env) (self : Employer)
  (user_input : string) (r : bot_response) (s : shared) :
  get_function_to_call E user_input (available_functions E) = Some r ->
  name r = "ask_question" ->
  args r !! "question" = None ->
  let res := exec (job_on_command E self user_input) s in
  fst res =
    Raised (TypeError
      "Employer.ask_question() missing 1 required positional argument: 'question'")
  /\ since s (snd res) =
       [Call (GetFunctionToCall user_input (available_functions E))].
Proof.
  intros Hr Hname Hq. cbv zeta.
  erewrite (job_on_command_known E self user_input r); [| exact Hr |];
    cycle 1.
  { rewrite Hname. reflexivity. }
  cbv beta. rewrite lookup_insert_ne by discriminate. rewrite Hq. simpl.
  split; [reflexivity | apply since_emit1].
Qed.

Lemma dispatch_ask_without_question_witness :
  let res := exec (job_on_command demo {| audio := true |} "ask something")
               initial in
  since initial (snd res) =
    [Call (GetFunctionToCall "ask something" (available_functions demo))].
Proof.
  exact (proj2 (dispatch_ask_without_question demo {| audio := true |}
                  "ask something" {| name := "ask_question"; args := ∅ |}
                  initial eq_refl eq_refl eq_refl)).
Defined.

(** When the resolver names [ask_question] with a question, the question
    service is asked exactly that question once; its answer goes to the
    channel chosen by [self.audio], and when it has no answer the error
    line is printed, also in audio mode. *)
Theorem dispatch_ask_question (E : Env) (self : Employer)
  (user_input : string) (r : bot_response) (question : value) (s : shared) :
  get_function_to_call E user_input (available_functions E) = Some r ->
  name r = "ask_question" ->
  args r !! "question" = Some question ->
  let res := exec (job_on_command E self user_input) s in
  fst res = Returned VNone /\
  since s (snd res) =
    [Call (GetFunctionToCall user_input (available_functions E));
     Print "Asking question...";
     Call (AskQuestion question);
     match ai_ask_question E question with
     | Some answer => say_event (VBool (audio self)) answer
     | None => Print "Error: Could not retrieve an answer."
     end].
Proof.
  intros Hr Hname Hq. cbv zeta.
  erewrite (job_on_command_known E self user_input r); [| exact Hr |];
    cycle 1.
  { rewrite Hname. reflexivity. }
  cbv beta. rewrite lookup_insert_ne by discriminate. rewrite Hq.
  unfold kwarg. rewrite lookup_insert_eq. unfold ask_question. simpl.
  destruct (ai_ask_question E question) as [answer |]; simpl.
  - rewrite !exec_bind, exec_say_event. simpl.
    split; [reflexivity | apply since_emit4].
  - split; [reflexivity | apply since_emit4].
Qed.

Lemma dispatch_ask_question_witness :
  let f := fun (_ : string) (_ : list string) =>
             Some {| name := "ask_question";
                     args := {[ "question" := VStr "why" ]} |} in
  let res := exec (job_on_command (with_resolver demo_sunny f)
                     {| audio := true |} "why") initial in
  output (since initial (snd res)) =
    [Print "Asking question...";
     Print "Error: Could not retrieve an answer."].
Proof.
  destruct (dispatch_ask_question
              (with_resolver demo_sunny
                 (fun _ _ => Some {| name := "ask_question";
                                     args := {[ "question" := VStr "why" ]} |}))
              {| audio := true |} "why"
              {| name := "ask_question";
                 args := {[ "question" := VStr "why" ]} |}
              (VStr "why") initial eq_refl eq_refl) as (_ & H2).
  - apply lookup_singleton_eq.
  - cbv zeta. rewrite H2. reflexivity.
Defined.

(** ** weather: the remaining paths *)

(** With no city given and a geolocation whose [latlng] is not a pair
    (an empty list, say), the unpacking in [weather] raises: the
    exception leaves the function right after the geolocation call, no
    error line is written and no weather is looked up. *)
Theorem weather_geolocation_unpack_fails (E : Env) (city audio : value)
  (s : shared) (e : exn) :
  city = VNone \/ city = VStr "" ->
  unpack2 (geo_latlng (geocoder_ip E "me")) = inl e ->
  let res := exec (weather E city audio) s in
  fst res = Raised e /\
  since s (snd res) = [Print "Getting weather..."; Call (GeocoderIp "me")].
Proof.
  intros Hcity Hun. cbv zeta.
  assert (Hmiss : is_none city || eq_empty_str city = true)
    by (destruct Hcity as [-> | ->]; reflexivity).
  rewrite (exec_weather_here E city audio s Hmiss). cbv zeta.
  rewrite Hun. split; [reflexivity | apply since_emit2].
Qed.

Lemma weather_geolocation_unpack_fails_witness :
  let res := exec (weather demo_lost VNone (VBool true)) initial in
  fst res = Raised (ValueError "not enough values to unpack (expected 2)") /\
  since initial (snd res) =
    [Print "Getting weather..."; Call (GeocoderIp "me")].
Proof.
  apply (weather_geolocation_unpack_fails demo_lost VNone (VBool true)
           initial (ValueError "not enough values to unpack (expected 2)")
           (or_introl eq_refl) eq_refl).
Defined.

(** With a named city whose coordinates are found, [weather] looks the
    weather up at exactly those coordinates.  If the lookup fails, the
    weather error line is printed (also in audio mode) and nothing is
    reported; if it succeeds, one sentence naming the city as it was
    given, the description and the temperature goes to the channel
    chosen by [audio]. *)
Theorem weather_named_city_report (E : Env) (city audio lat lon : value)
  (s : shared) :
  is_none city || eq_empty_str city = false ->
  get_coordinates_for_city_name E city = (lat, lon) ->
  is_none lat || is_none lon = false ->
  let res := exec (weather E city audio) s in
  fst res = Returned VNone /\
  since s (snd res) =
    [Print "Getting weather...";
     Call (GetCoordinatesForCityName city);
     Call (GetWeatherForCoordinates lat lon);
     match get_weather_for_coordinates E lat lon with
     | None => Print "Error: Could not retrieve weather information."
     | Some w =>
         say_event audio
           ("The weather for " +:+ format_value E city +:+ " is "
            +:+ format_value E (description w) +:+ " with "
            +:+ format_value E (temp w) +:+ "°C.")
     end].
Proof.
  intros Hcity Hco Hfound. cbv zeta.
  rewrite (exec_weather_named E city audio s Hcity). cbv zeta.
  rewrite Hco, Hfound. unfold say_event.
  destruct (get_weather_for_coordinates E lat lon) as [w |];
    [destruct (truthy audio) |]; simpl;
    (split; [reflexivity | apply since_emit4]).
Qed.

Lemma weather_named_city_report_witness :
  let res := exec (weather demo_sunny (VStr "Paris") (VBool true)) initial in
  fst res = Returned VNone /\
  since initial (snd res) =
    [Print "Getting weather...";
     Call (GetCoordinatesForCityName (VStr "Paris"));
     Call (GetWeatherForCoordinates (VInt 48) (VInt 2));
     Speak "The weather for Paris is clear sky with 21°C."].
Proof.
  apply (weather_named_city_report demo_sunny (VStr "Paris") (VBool true)
           (VInt 48) (VInt 2) initial eq_refl eq_refl eq_refl).
Defined.

(** ** Finished threads *)

Lemma next_finished (ph ph' : phase) (cs cs' : list command)
  (s s' : shared) (t : nat) :
  next ph cs s = Some (ph', cs', s') ->
  finished t s = true -> finished t s' = true.
Proof.
  intros Hnext Hfin.
  assert (Happ : forall th,
             finished t (set_threads (threads s ++ [th]) s) = true).
  { intros th. unfold finished in *. simpl.
    destruct (threads s !! t) as [th0 |] eqn:Hth; [| discriminate].
    now rewrite (lookup_app_l_Some _ _ _ _ Hth). }
  destruct ph as [| a | a | t0 | | | t0 | | | e]; simpl in Hnext.
  - destruct cs as [| [a | |] rest]; [discriminate | ..];
      injection Hnext as <- <- <-; exact Hfin.
  - destruct (bool_decide (is_Some (active_jobs s !! "check_new_emails")));
      injection Hnext as <- <- <-; exact Hfin.
  - injection Hnext as <- <- <-. apply Happ.
  - injection Hnext as <- <- <-. exact Hfin.
  - destruct (bool_decide (is_Some (active_jobs s !! "check_new_emails")));
      injection Hnext as <- <- <-; exact Hfin.
  - destruct (active_jobs s !! "check_new_emails");
      injection Hnext as <- <- <-; exact Hfin.
  - destruct (finished t0 s); [| discriminate].
    injection Hnext as <- <- <-. exact Hfin.
  - destruct (active_jobs s !! "check_new_emails");
      injection Hnext as <- <- <-; exact Hfin.
  - injection Hnext as <- <- <-. apply Happ.
  - discriminate.
Qed.

Lemma finished_run (E : Env) (sched : list pick) (ph : phase)
  (cs : list command) (s : shared) (t : nat) :
  finished t s = true ->
  finished t (sh (run E sched
                    {| sh := s; main := residual ph >> program cs |})) = true.
Proof.
  revert ph cs s. induction sched as [| p rest IH]; intros ph cs s Hfin.
  - exact Hfin.
  - destruct p as [| t0]; cbn [run step].
    + rewrite step_main_next.
      destruct (next ph cs s) as [[[ph' cs'] s'] |] eqn:Hnext.
      * apply IH. exact (next_finished ph ph' cs cs' s s' t Hnext Hfin).
      * now apply IH.
    + cbn [sh main].
      destruct (step_thread E t0 s) as [s' |] eqn:Hst.
      * apply IH. exact (step_thread_finished E t0 t s s' Hst Hfin).
      * now apply IH.
Qed.

(** A thread that has finished stays finished: whatever start, stop and
    accept-game commands follow and however the workers are scheduled, no
    handle is ever reused and no finished poller or watcher runs again. *)
Theorem finished_for_good (E : Env) (cs : list command)
  (sched sched' : list pick) (t : nat) :
  let c0 := {| sh := initial; main := program cs |} in
  finished t (sh (run E sched c0)) = true ->
  finished t (sh (run E (sched ++ sched') c0)) = true.
Proof.
  cbv zeta. intros Hfin. rewrite run_app.
  destruct (well_kept_run E sched Between cs initial well_kept_initial)
    as (ph & cs' & Hmain & _).
  change (residual Between >> program cs) with (program cs) in Hmain.
  destruct (run E sched {| sh := initial; main := program cs |})
    as [s m] eqn:Hrun.
  cbn [main sh] in Hmain, Hfin. subst m.
  now apply finished_run.
Qed.

Lemma finished_for_good_witness :
  let c0 := {| sh := initial;
               main := program [StartChecking (VBool false);
                                StartChecking (VBool true)] |} in
  finished 0 (sh (run demo ([Main; Main; Main; Worker 0]
                            ++ [Main; Worker 0; Main; Main; Worker 0])
                    c0)) = true.
Proof.
  apply (finished_for_good demo
           [StartChecking (VBool false); StartChecking (VBool true)]
           [Main; Main; Main; Worker 0]
           [Main; Worker 0; Main; Main; Worker 0] 0).
  vm_compute. reflexivity.
Defined.
